(** * KiCad rule-check items, tree model, reporters and frame settings

    A shallow embedding of
      - common/rc_item.h        (RC_ITEM, RC_TREE_NODE, RC_TREE_MODEL),
      - include/reporter.h      (REPORTER and its default methods),
      - pcbnew/basepcbframe.cpp (PCB_BASE_FRAME::LoadSettings),
    with the properties proved about them.

    Conventions.  A C++ [int] is a [Z] with the 32-bit wrap-around written
    out where a conversion happens ([to_int]).  A raw pointer is an address
    ([ptr], a natural number, [nullptr] being address 0).  Types and
    constants that are declared in headers outside the three files above
    (KIID, niluuid, wxVariant, the EDA_DRAW_MODE_T enumerators, wxConfigBase)
    are Section variables, so every statement holds for any choice of them. *)

From stdpp Require Import base decidable option list numbers strings gmap.

Local Open Scope Z_scope.

(** ** Machine integers and pointers *)

Definition INT_MIN : Z := - 2 ^ 31.
Definition INT_MAX : Z := 2 ^ 31 - 1.

(** Conversion of an integer value to a 32-bit [int] (two's complement). *)
Definition to_int (z : Z) : Z := (z + 2 ^ 31) `mod` 2 ^ 32 - 2 ^ 31.

(** A raw pointer: the address it holds. *)
Definition ptr : Type := N.
Definition nullptr : ptr := 0%N.

Lemma to_int_range (z : Z) : INT_MIN ≤ to_int z ≤ INT_MAX.
Proof.
  unfold to_int, INT_MIN, INT_MAX.
  pose proof (Z.mod_pos_bound (z + 2 ^ 31) (2 ^ 32)) as Hb. lia.
Qed.

Lemma to_int_id (z : Z) : INT_MIN ≤ z ≤ INT_MAX → to_int z = z.
Proof.
  unfold to_int, INT_MIN, INT_MAX. intros Hz.
  rewrite Z.mod_small by lia. lia.
Qed.

(** ** RC_ITEM (common/rc_item.h) *)

Module RcItem.
Section WithKIID.
(** [KIID] and the sentinel [niluuid] are declared outside rc_item.h. *)
Context {KIID : Type} `{!EqDecision KIID} (niluuid : KIID).

(** The one member of EDA_ITEM that RC_ITEM reads. *)
Record EDA_ITEM : Type := { m_Uuid : KIID }.

Record RC_ITEM : Type := {
  m_errorCode    : Z;
  m_errorMessage : string;
  m_parent       : ptr;       (* MARKER_BASE* *)
  m_mainItemUuid : KIID;
  m_auxItemUuid  : KIID;
}.

(** RC_ITEM::RC_ITEM() *)
Definition RC_ITEM_new : RC_ITEM :=
  {| m_errorCode := 0; m_errorMessage := EmptyString; m_parent := nullptr;
     m_mainItemUuid := niluuid; m_auxItemUuid := niluuid |}.

(** RC_ITEM::RC_ITEM( RC_ITEM* aItem ) *)
Definition RC_ITEM_copy (aItem : RC_ITEM) : RC_ITEM :=
  {| m_errorCode := m_errorCode aItem;
     m_errorMessage := m_errorMessage aItem;
     m_parent := m_parent aItem;
     m_mainItemUuid := m_mainItemUuid aItem;
     m_auxItemUuid := m_auxItemUuid aItem |}.

Definition SetErrorMessage (aMessage : string) (it : RC_ITEM) : RC_ITEM :=
  {| m_errorCode := m_errorCode it; m_errorMessage := aMessage;
     m_parent := m_parent it;
     m_mainItemUuid := m_mainItemUuid it; m_auxItemUuid := m_auxItemUuid it |}.

(** SetItems( EDA_ITEM* aItem, EDA_ITEM* bItem = nullptr ): the auxiliary
    identifier is only written when [bItem] is not null. *)
Definition SetItems_ptr (aItem : EDA_ITEM) (bItem : option EDA_ITEM)
    (it : RC_ITEM) : RC_ITEM :=
  {| m_errorCode := m_errorCode it; m_errorMessage := m_errorMessage it;
     m_parent := m_parent it;
     m_mainItemUuid := m_Uuid aItem;
     m_auxItemUuid := match bItem with
                      | Some b => m_Uuid b
                      | None => m_auxItemUuid it
                      end |}.

(** SetItems( const KIID& aItem, const KIID& bItem = niluuid ) *)
Definition SetItems (aItem bItem : KIID) (it : RC_ITEM) : RC_ITEM :=
  {| m_errorCode := m_errorCode it; m_errorMessage := m_errorMessage it;
     m_parent := m_parent it;
     m_mainItemUuid := aItem; m_auxItemUuid := bItem |}.

Definition GetMainItemID (it : RC_ITEM) : KIID := m_mainItemUuid it.
Definition GetAuxItemID (it : RC_ITEM) : KIID := m_auxItemUuid it.

Definition SetParent (aMarker : ptr) (it : RC_ITEM) : RC_ITEM :=
  {| m_errorCode := m_errorCode it; m_errorMessage := m_errorMessage it;
     m_parent := aMarker;
     m_mainItemUuid := m_mainItemUuid it; m_auxItemUuid := m_auxItemUuid it |}.
Definition GetParent (it : RC_ITEM) : ptr := m_parent it.

Definition GetErrorCode (it : RC_ITEM) : Z := m_errorCode it.
Definition SetErrorCode (aCode : Z) (it : RC_ITEM) : RC_ITEM :=
  {| m_errorCode := aCode; m_errorMessage := m_errorMessage it;
     m_parent := m_parent it;
     m_mainItemUuid := m_mainItemUuid it; m_auxItemUuid := m_auxItemUuid it |}.

(** The public, state-changing interface of an RC_ITEM, as data. *)
Inductive rc_op : Type :=
  | OpCopy
  | OpSetErrorMessage (aMessage : string)
  | OpSetItemsPtr (aItem : EDA_ITEM) (bItem : option EDA_ITEM)
  | OpSetItems (aItem bItem : KIID)
  | OpSetParent (aMarker : ptr)
  | OpSetErrorCode (aCode : Z).

Definition apply_op (op : rc_op) (it : RC_ITEM) : RC_ITEM :=
  match op with
  | OpCopy => RC_ITEM_copy it
  | OpSetErrorMessage s => SetErrorMessage s it
  | OpSetItemsPtr a b => SetItems_ptr a b it
  | OpSetItems a b => SetItems a b it
  | OpSetParent p => SetParent p it
  | OpSetErrorCode c => SetErrorCode c it
  end.

(** The item reached from [it] by the calls [ops], first call first. *)
Definition run_ops (ops : list rc_op) (it : RC_ITEM) : RC_ITEM :=
  foldl (λ acc op, apply_op op acc) it ops.

(** The items reachable from a freshly constructed one. *)
Definition reachable (it : RC_ITEM) : Prop :=
  ∃ ops, it = run_ops ops RC_ITEM_new.

(** The identifier invariant under test: the main identifier is present
    and the auxiliary one is nil or a different identifier. *)
Definition ids_ok (it : RC_ITEM) : Prop :=
  GetMainItemID it ≠ niluuid ∧
  (GetAuxItemID it = niluuid ∨ GetAuxItemID it ≠ GetMainItemID it).

(** A pair of identifiers a caller may hand to SetItems so that the
    invariant holds afterwards. *)
Definition good_pair (a b : KIID) : Prop :=
  a ≠ niluuid ∧ (b = niluuid ∨ b ≠ a).

(** Calls that write both identifiers with a good pair. *)
Definition establishes (op : rc_op) : Prop :=
  match op with
  | OpSetItems a b => good_pair a b
  | OpSetItemsPtr a (Some b) => good_pair (m_Uuid a) (m_Uuid b)
  | _ => False
  end.

(** Calls that write neither identifier. *)
Definition keeps_ids (op : rc_op) : Prop :=
  match op with
  | OpSetItems _ _ | OpSetItemsPtr _ _ => False
  | _ => True
  end.

Lemma run_ops_app (ops1 ops2 : list rc_op) (it : RC_ITEM) :
  run_ops (ops1 ++ ops2) it = run_ops ops2 (run_ops ops1 it).
Proof. unfold run_ops. apply foldl_app. Qed.

Lemma keeps_ids_main (op : rc_op) (it : RC_ITEM) :
  keeps_ids op → GetMainItemID (apply_op op it) = GetMainItemID it.
Proof. destruct op; simpl; intros H; try reflexivity; destruct H. Qed.

Lemma keeps_ids_aux (op : rc_op) (it : RC_ITEM) :
  keeps_ids op → GetAuxItemID (apply_op op it) = GetAuxItemID it.
Proof. destruct op; simpl; intros H; try reflexivity; destruct H. Qed.

Lemma run_keeps_ids (ops : list rc_op) (it : RC_ITEM) :
  Forall keeps_ids ops →
  GetMainItemID (run_ops ops it) = GetMainItemID it ∧
  GetAuxItemID (run_ops ops it) = GetAuxItemID it.
Proof.
  intros Hall. revert it.
  induction Hall as [|op ops Hop _ IH]; intros it; [done|].
  change (run_ops (op :: ops) it) with (run_ops ops (apply_op op it)).
  destruct (IH (apply_op op it)) as [-> ->].
  split; [by apply keeps_ids_main | by apply keeps_ids_aux].
Qed.

Lemma establishes_ids_ok (op : rc_op) (it : RC_ITEM) :
  establishes op → ids_ok (apply_op op it).
Proof.
  destruct op as [| |a [b|]|a b| |]; simpl; try tauto; intros H; exact H.
Qed.

(** The copy constructor copies all five members. *)
Lemma RC_ITEM_copy_same (aItem : RC_ITEM) : RC_ITEM_copy aItem = aItem.
Proof. destruct aItem. reflexivity. Qed.

(** The two SetItems overloads differ when the second argument is left
    out: the pointer overload keeps the auxiliary identifier the item had,
    the KIID overload (default [niluuid]) resets it. *)
Lemma SetItems_overloads_second_argument
    (aItem : EDA_ITEM) (it : RC_ITEM) :
  GetMainItemID (SetItems_ptr aItem None it) = m_Uuid aItem ∧
  GetAuxItemID (SetItems_ptr aItem None it) = GetAuxItemID it ∧
  GetMainItemID (SetItems (m_Uuid aItem) niluuid it) = m_Uuid aItem ∧
  GetAuxItemID (SetItems (m_Uuid aItem) niluuid it) = niluuid.
Proof. repeat split. Qed.

(** C6, as stated, quantifies over every reachable item; the freshly
    constructed one already has a nil main identifier. *)
Lemma new_item_has_no_ids :
  GetMainItemID RC_ITEM_new = niluuid ∧ GetAuxItemID RC_ITEM_new = niluuid.
Proof. split; reflexivity. Qed.

(** C6 (amended): an RC_ITEM may relate to zero entities, so a freshly
    constructed item has both identifiers nil.  From the first SetItems
    call that is handed a non-nil main identifier and an auxiliary
    identifier that is nil or different from it, the identifier invariant
    holds, and it keeps holding through copy construction and every
    setter that does not write the identifiers. *)
Theorem ids_ok_after_SetItems
    (before after : list rc_op) (op : rc_op) :
  establishes op →
  Forall keeps_ids after →
  reachable (run_ops (before ++ op :: after) RC_ITEM_new) ∧
  ¬ ids_ok RC_ITEM_new ∧
  ids_ok (run_ops (before ++ op :: after) RC_ITEM_new).
Proof.
  intros Hop Hkeep. split; [by eexists|]. split.
  { intros [Hmain _]. by apply Hmain. }
  rewrite run_ops_app.
  change (run_ops (op :: after) ?x) with (run_ops after (apply_op op x)).
  pose proof (establishes_ids_ok op (run_ops before RC_ITEM_new) Hop)
    as [Hmain Haux].
  destruct (run_keeps_ids after (apply_op op (run_ops before RC_ITEM_new))
              Hkeep) as [Em Ea].
  unfold ids_ok. rewrite Em, Ea. by split.
Qed.

End WithKIID.

Arguments EDA_ITEM : clear implicits.
Arguments RC_ITEM : clear implicits.
Arguments rc_op : clear implicits.

(** The invariant of C6 fails for the default-constructed item (identifiers
    instantiated with natural numbers, nil being 0). *)
Lemma default_item_breaks_ids_ok :
  ¬ (∀ it : RC_ITEM N, reachable 0%N it → ids_ok 0%N it).
Proof.
  intros H.
  destruct (H (RC_ITEM_new 0%N)) as [Hmain _].
  - by exists [].
  - by apply Hmain.
Qed.

Lemma ids_ok_after_SetItems_witness :
  ids_ok 0%N
    (run_ops [OpSetErrorCode 42; OpSetItems 7%N 9%N; OpCopy;
              OpSetErrorMessage "short circuit"] (RC_ITEM_new 0%N)).
Proof.
  refine (proj2 (proj2 (ids_ok_after_SetItems 0%N
            [OpSetErrorCode 42] [OpCopy; OpSetErrorMessage "short circuit"]
            (OpSetItems 7%N 9%N) _ _))).
  - split; [done | right; done].
  - repeat constructor.
Defined.

End RcItem.

(** ** REPORTER (include/reporter.h) *)

Module Reporter.
Section WithSeverity.
(** [SEVERITY] and [RPT_SEVERITY_UNDEFINED] come from widgets/ui_common.h. *)
Context {SEVERITY : Type} (RPT_SEVERITY_UNDEFINED : SEVERITY).

(** The virtual methods of a class derived from REPORTER whose objects
    have state [R].  [Report] and [HasMessage] are pure virtual, so every
    concrete class supplies them; [ReportTail] and [ReportHead] have a
    body in the base class and a derived class may or may not override
    them.  A call returns [REPORTER&]: the reporter after the call. *)
Record REPORTER (R : Type) : Type := {
  Report_impl         : string → SEVERITY → R → R;
  ReportTail_override : option (string → SEVERITY → R → R);
  ReportHead_override : option (string → SEVERITY → R → R);
  HasMessage_impl     : R → bool;
}.
Arguments Report_impl {R}.
Arguments ReportTail_override {R}.
Arguments ReportHead_override {R}.
Arguments HasMessage_impl {R}.

(** Virtual dispatch of [Report]. *)
Definition Report {R} (cls : REPORTER R)
    (aText : string) (aSeverity : SEVERITY) (this : R) : R :=
  Report_impl cls aText aSeverity this.

(** The bodies written in the base class. *)
Definition REPORTER_ReportTail {R} (cls : REPORTER R)
    (aText : string) (aSeverity : SEVERITY) (this : R) : R :=
  Report cls aText aSeverity this.

Definition REPORTER_ReportHead {R} (cls : REPORTER R)
    (aText : string) (aSeverity : SEVERITY) (this : R) : R :=
  Report cls aText aSeverity this.

(** Virtual dispatch of [ReportTail] and [ReportHead]: the override when
    the class has one, the base-class body otherwise. *)
Definition ReportTail {R} (cls : REPORTER R)
    (aText : string) (aSeverity : SEVERITY) (this : R) : R :=
  match ReportTail_override cls with
  | Some f => f aText aSeverity this
  | None => REPORTER_ReportTail cls aText aSeverity this
  end.

Definition ReportHead {R} (cls : REPORTER R)
    (aText : string) (aSeverity : SEVERITY) (this : R) : R :=
  match ReportHead_override cls with
  | Some f => f aText aSeverity this
  | None => REPORTER_ReportHead cls aText aSeverity this
  end.

(** A call that leaves the severity out takes the default argument. *)
Definition arg_or_default (aSeverity : option SEVERITY) : SEVERITY :=
  default RPT_SEVERITY_UNDEFINED aSeverity.

(** The classes of reporter.h that keep the base-class bodies
    (WX_TEXT_CTRL_REPORTER, WX_STRING_REPORTER, NULL_REPORTER,
    STDOUT_REPORTER): built from their [Report] and [HasMessage]. *)
Definition plain_reporter {R} (report : string → SEVERITY → R → R)
    (has_message : R → bool) : REPORTER R :=
  {| Report_impl := report; ReportTail_override := None;
     ReportHead_override := None; HasMessage_impl := has_message |}.

(** WX_HTML_PANEL_REPORTER overrides all three methods. *)
Definition WX_HTML_PANEL_REPORTER {R}
    (report tail head : string → SEVERITY → R → R)
    (has_message : R → bool) : REPORTER R :=
  {| Report_impl := report; ReportTail_override := Some tail;
     ReportHead_override := Some head; HasMessage_impl := has_message |}.

Definition inherits_defaults {R} (cls : REPORTER R) : Prop :=
  ReportTail_override cls = None ∧ ReportHead_override cls = None.

(** C10: for a class that overrides neither method, [ReportTail] and
    [ReportHead] give the result of [Report] on the same text and
    severity, also when the severity is the default argument. *)
Theorem default_ReportTail_ReportHead_forward
    {R} (cls : REPORTER R) (aText : string)
    (aSeverity : option SEVERITY) (this : R) :
  inherits_defaults cls →
  ReportTail cls aText (arg_or_default aSeverity) this
    = Report cls aText (arg_or_default aSeverity) this ∧
  ReportHead cls aText (arg_or_default aSeverity) this
    = Report cls aText (arg_or_default aSeverity) this.
Proof.
  intros [Htail Hhead]. unfold ReportTail, ReportHead.
  rewrite Htail, Hhead. split; reflexivity.
Qed.

Lemma plain_reporter_inherits {R} report has_message :
  inherits_defaults (@plain_reporter R report has_message).
Proof. split; reflexivity. Qed.

End WithSeverity.

(** A reporter that appends to a string, with severities as integers. *)
Definition string_reporter : REPORTER (SEVERITY := Z) string :=
  plain_reporter (λ aText _ acc, acc +:+ aText)
                 (λ acc, bool_decide (acc ≠ EmptyString)).

Lemma default_ReportTail_ReportHead_forward_witness :
  ReportTail string_reporter "net" (arg_or_default 0 (Some 2)) "open "
    = Report string_reporter "net" (arg_or_default 0 (Some 2)) "open " ∧
  ReportHead string_reporter "net" (arg_or_default 0 (Some 2)) "open "
    = Report string_reporter "net" (arg_or_default 0 (Some 2)) "open ".
Proof.
  apply (default_ReportTail_ReportHead_forward 0 string_reporter).
  split; reflexivity.
Defined.

End Reporter.

(** ** PCB_BASE_FRAME::LoadSettings (pcbnew/basepcbframe.cpp) *)

Module PcbBaseFrame.

(** Configuration entry names. *)
Definition UserGridSizeXEntry : string := "PcbUserGrid_X".
Definition UserGridSizeYEntry : string := "PcbUserGrid_Y".
Definition UserGridUnitsEntry : string := "PcbUserGrid_Unit".
Definition DisplayPadFillEntry : string := "DiPadFi".
Definition DisplayViaFillEntry : string := "DiViaFi".
Definition DisplayPadNumberEntry : string := "DiPadNu".
Definition DisplayModuleEdgeEntry : string := "DiModEd".
Definition DisplayModuleTextEntry : string := "DiModTx".
Definition FastGrid1Entry : string := "FastGrid1".
Definition FastGrid2Entry : string := "FastGrid2".

Section LoadSettings.
(** Enumerators and command identifiers declared in other headers:
    EDA_DRAW_MODE_T (LINE, FILLED, SKETCH), EDA_UNITS_T (INCHES) and the
    grid popup identifiers. *)
Variables LINE FILLED SKETCH INCHES : Z.
Variables ID_POPUP_GRID_USER ID_POPUP_GRID_LEVEL_1000
          ID_POPUP_GRID_LEVEL_500 : Z.

(** The configuration store.  [Read_long cfg key def] is what
    [cfg->Read( key, &l, def )] leaves in [l]: the stored value, or [def]
    when the key is absent; likewise for bool and double. *)
Variables (wxConfigBase double : Type) (double_0_01 : double).
Variable Read_long : wxConfigBase → string → Z → Z.
Variable Read_bool : wxConfigBase → string → bool → bool.
Variable Read_double : wxConfigBase → string → double → double.

(** [Read( key, int* pi, int defVal )]: reads a long and stores it
    converted to int. *)
Definition Read_int (aCfg : wxConfigBase) (key : string) (defVal : Z) : Z :=
  to_int (Read_long aCfg key (to_int defVal)).

(** The members of the frame that LoadSettings reads or writes. *)
Record PCB_BASE_FRAME : Type := {
  m_FrameName      : string;
  m_LastGridSizeId : Z;
  m_UserGridSize   : double * double;
  m_UserGridUnit   : Z;
  m_DisplayPadFill : bool;
  m_DisplayViaFill : bool;
  m_DisplayPadNum  : bool;
  m_DisplayModEdge : Z;
  m_DisplayModText : Z;
  m_FastGrid1      : Z;
  m_FastGrid2      : Z;
}.

(** The base-class method, called first; its body is in another file. *)
Variable EDA_DRAW_FRAME_LoadSettings :
  wxConfigBase → PCB_BASE_FRAME → PCB_BASE_FRAME.

(** [if( x < LINE || x > SKETCH ) x = FILLED;] *)
Definition clamp_mode (x : Z) : Z :=
  if bool_decide (x < LINE) || bool_decide (x > SKETCH) then FILLED else x.

(** PCB_BASE_FRAME::LoadSettings.  The grid unit and the fast grids are
    read into the long [itmp] and then converted to the member's type;
    the display modes are read by the int overload of Read.  The
    statements after the last display mode check configure the GAL view
    and the locale and write no member of the frame. *)
Definition LoadSettings (aCfg : wxConfigBase) (this : PCB_BASE_FRAME)
    : PCB_BASE_FRAME :=
  let f := EDA_DRAW_FRAME_LoadSettings aCfg this in
  let name := m_FrameName f in
  let gridId :=
    if bool_decide (m_LastGridSizeId f ≤ 0)
       || bool_decide (m_LastGridSizeId f
                         > ID_POPUP_GRID_USER - ID_POPUP_GRID_LEVEL_1000)
    then ID_POPUP_GRID_LEVEL_500 - ID_POPUP_GRID_LEVEL_1000
    else m_LastGridSizeId f in
  let gx := Read_double aCfg (name +:+ UserGridSizeXEntry) double_0_01 in
  let gy := Read_double aCfg (name +:+ UserGridSizeYEntry) double_0_01 in
  let itmp := Read_long aCfg (name +:+ UserGridUnitsEntry) INCHES in
  let unit := to_int itmp in
  let padFill := Read_bool aCfg (name +:+ DisplayPadFillEntry) true in
  let viaFill := Read_bool aCfg (name +:+ DisplayViaFillEntry) true in
  let padNum := Read_bool aCfg (name +:+ DisplayPadNumberEntry) true in
  let modEdge := Read_int aCfg (name +:+ DisplayModuleEdgeEntry) FILLED in
  let fast1 := to_int (Read_long aCfg (name +:+ FastGrid1Entry) 0) in
  let fast2 := to_int (Read_long aCfg (name +:+ FastGrid2Entry) 0) in
  let modEdge' := clamp_mode modEdge in
  let modText := Read_int aCfg (name +:+ DisplayModuleTextEntry) FILLED in
  let modText' := clamp_mode modText in
  {| m_FrameName := name;
     m_LastGridSizeId := gridId;
     m_UserGridSize := (gx, gy);
     m_UserGridUnit := unit;
     m_DisplayPadFill := padFill;
     m_DisplayViaFill := viaFill;
     m_DisplayPadNum := padNum;
     m_DisplayModEdge := modEdge';
     m_DisplayModText := modText';
     m_FastGrid1 := fast1;
     m_FastGrid2 := fast2 |}.

(** The value the configuration supplies for a display-mode entry. *)
Definition supplied (aCfg : wxConfigBase) (this : PCB_BASE_FRAME)
    (entry : string) : Z :=
  Read_int aCfg
    (m_FrameName (EDA_DRAW_FRAME_LoadSettings aCfg this) +:+ entry) FILLED.

Definition in_range (x : Z) : Prop := LINE ≤ x ≤ SKETCH.

Lemma clamp_mode_in_range (x : Z) :
  in_range FILLED → in_range (clamp_mode x).
Proof.
  unfold in_range, clamp_mode. intros HF.
  repeat case_bool_decide; simpl; lia.
Qed.

Lemma clamp_mode_keeps (x : Z) : in_range x → clamp_mode x = x.
Proof.
  unfold in_range, clamp_mode. intros Hx.
  repeat case_bool_decide; simpl; lia.
Qed.

Lemma clamp_mode_replaces (x : Z) : ¬ in_range x → clamp_mode x = FILLED.
Proof.
  unfold in_range, clamp_mode. intros Hx.
  repeat case_bool_decide; simpl; lia.
Qed.

(** After LoadSettings the grid identifier is an existing one: it lies in
    (0, ID_POPUP_GRID_USER - ID_POPUP_GRID_LEVEL_1000] or is the 500 level. *)
Lemma LoadSettings_grid_id (aCfg : wxConfigBase) (this : PCB_BASE_FRAME) :
  0 < m_LastGridSizeId (LoadSettings aCfg this)
    ≤ ID_POPUP_GRID_USER - ID_POPUP_GRID_LEVEL_1000 ∨
  m_LastGridSizeId (LoadSettings aCfg this)
    = ID_POPUP_GRID_LEVEL_500 - ID_POPUP_GRID_LEVEL_1000.
Proof.
  cbn [LoadSettings m_LastGridSizeId].
  repeat case_bool_decide; simpl; auto. left. lia.
Qed.

(** C9: whatever the configuration holds, after LoadSettings both display
    modes lie in [LINE, SKETCH]; a supplied value outside that range has
    been replaced by FILLED and one inside it is kept.  The enumerators
    are taken in their declared order LINE, FILLED, SKETCH. *)
Theorem LoadSettings_display_modes_in_range
    (aCfg : wxConfigBase) (this : PCB_BASE_FRAME) :
  LINE ≤ FILLED ≤ SKETCH →
  in_range (m_DisplayModEdge (LoadSettings aCfg this)) ∧
  in_range (m_DisplayModText (LoadSettings aCfg this)) ∧
  (¬ in_range (supplied aCfg this DisplayModuleEdgeEntry) →
     m_DisplayModEdge (LoadSettings aCfg this) = FILLED) ∧
  (¬ in_range (supplied aCfg this DisplayModuleTextEntry) →
     m_DisplayModText (LoadSettings aCfg this) = FILLED) ∧
  (in_range (supplied aCfg this DisplayModuleEdgeEntry) →
     m_DisplayModEdge (LoadSettings aCfg this)
       = supplied aCfg this DisplayModuleEdgeEntry) ∧
  (in_range (supplied aCfg this DisplayModuleTextEntry) →
     m_DisplayModText (LoadSettings aCfg this)
       = supplied aCfg this DisplayModuleTextEntry).
Proof.
  intros Horder. cbn [LoadSettings m_DisplayModEdge m_DisplayModText].
  fold (supplied aCfg this DisplayModuleEdgeEntry).
  fold (supplied aCfg this DisplayModuleTextEntry).
  repeat split.
  - apply clamp_mode_in_range; exact Horder.
  - apply clamp_mode_in_range; exact Horder.
  - apply clamp_mode_in_range; exact Horder.
  - apply clamp_mode_in_range; exact Horder.
  - apply clamp_mode_replaces.
  - apply clamp_mode_replaces.
  - apply clamp_mode_keeps.
  - apply clamp_mode_keeps.
Qed.

End LoadSettings.

(** A configuration held as a finite map from entry names to longs; the
    bool and double entries play no part below and read as their default. *)
Definition map_Read_long (cfg : gmap string Z) (key : string) (def : Z) : Z :=
  default def (cfg !! key).

Definition example_frame : PCB_BASE_FRAME unit :=
  {| m_FrameName := "PcbFrame"; m_LastGridSizeId := 0;
     m_UserGridSize := (tt, tt); m_UserGridUnit := 0;
     m_DisplayPadFill := true; m_DisplayViaFill := true;
     m_DisplayPadNum := true; m_DisplayModEdge := 1; m_DisplayModText := 1;
     m_FastGrid1 := 0; m_FastGrid2 := 0 |}.

Definition example_cfg : gmap string Z :=
  {[ "PcbFrameDiModEd" := 77; "PcbFrameDiModTx" := 2 ]}.

Definition example_LoadSettings : PCB_BASE_FRAME unit :=
  LoadSettings 0 1 2 0 3 1 2 (gmap string Z) unit tt map_Read_long
    (λ _ _ def, def) (λ _ _ def, def) (λ _ f, f) example_cfg example_frame.

Example example_LoadSettings_modes :
  m_DisplayModEdge _ example_LoadSettings = 1 ∧
  m_DisplayModText _ example_LoadSettings = 2.
Proof. split; vm_compute; reflexivity. Qed.

Lemma LoadSettings_display_modes_in_range_witness :
  in_range 0 2 (m_DisplayModEdge _ example_LoadSettings) ∧
  in_range 0 2 (m_DisplayModText _ example_LoadSettings).
Proof.
  pose proof (LoadSettings_display_modes_in_range 0 1 2 0 3 1 2
                (gmap string Z) unit tt map_Read_long
                (λ _ _ def, def) (λ _ _ def, def) (λ _ f, f)
                example_cfg example_frame ltac:(lia)) as (H1 & H2 & _).
  split; [exact H1 | exact H2].
Defined.

End PcbBaseFrame.

(** ** RC_ITEMS_PROVIDER (common/rc_item.h) *)

Module Provider.

(** The abstract interface, for a provider whose state has type [P].  A
    call that may change the provider returns its next state.  [item_at]
    is not a method: it is the dereference of an [RC_ITEM*] in the memory
    the provider manages ([None] for an address that holds no item). *)
Class RC_ITEMS_PROVIDER (KIID P : Type) : Type := {
  SetSeverities  : Z → P → P;
  GetCount       : Z → P → Z;
  GetItem        : Z → P → ptr;
  DeleteItem     : Z → bool → P → P;
  DeleteAllItems : P → P;
  item_at        : P → ptr → option (RcItem.RC_ITEM KIID);
}.

(** [GetCount()] with the default argument [aSeverity = -1]. *)
Definition GetCount_default `{RC_ITEMS_PROVIDER KIID P} (p : P) : Z :=
  GetCount (-1) p.

End Provider.

(** ** A provider over explicit storage *)

Module ListProvider.
Import RcItem.
Section WithKIID.
Context {KIID : Type}.

(** Modelled from the spec: the concrete providers are outside the
    sources.  This one keeps the item objects in a heap, each with the
    severity the host derives from its error code, and an ordered list of
    pointers to them.  It offers what the spec lists: "set active
    severity filter (bitmask of enabled severities); count of items
    matching an optional severity filter; fetch item by index; delete
    item by index with a deep/shallow flag; delete all items", where
    "the provider's count/getItem reflect only the filtered subset". *)
Record LIST_PROVIDER : Type := {
  lp_heap       : gmap N (RC_ITEM KIID * Z);
  lp_list       : list ptr;
  lp_severities : Z;
}.

(** The item at [a] exists and its severity is enabled in mask [M]. *)
Definition shown (heap : gmap N (RC_ITEM KIID * Z)) (M : Z) (a : ptr)
    : bool :=
  match heap !! a with
  | Some (_, sev) => bool_decide (Z.land sev M ≠ 0)
  | None => false
  end.

Definition filtered (M : Z) (lp : LIST_PROVIDER) : list ptr :=
  filter (λ a, shown (lp_heap lp) M a = true) (lp_list lp).

Definition lp_SetSeverities (aSeverities : Z) (lp : LIST_PROVIDER)
    : LIST_PROVIDER :=
  {| lp_heap := lp_heap lp; lp_list := lp_list lp;
     lp_severities := aSeverities |}.

(** A negative argument (the default -1) counts the filtered subset. *)
Definition lp_GetCount (aSeverity : Z) (lp : LIST_PROVIDER) : Z :=
  Z.of_nat (length (filtered
    (if bool_decide (aSeverity < 0) then lp_severities lp else aSeverity)
    lp)).

Definition lp_index (aIndex : Z) (lp : LIST_PROVIDER) : option ptr :=
  if bool_decide (0 ≤ aIndex)
  then filtered (lp_severities lp) lp !! Z.to_nat aIndex
  else None.

Definition lp_GetItem (aIndex : Z) (lp : LIST_PROVIDER) : ptr :=
  default nullptr (lp_index aIndex lp).

(** The indexed item is destroyed and its pointer leaves the list.  A
    deep delete also destroys the entity the item came from, which lives
    outside the provider. *)
Definition lp_DeleteItem (aIndex : Z) (aDeep : bool) (lp : LIST_PROVIDER)
    : LIST_PROVIDER :=
  match lp_index aIndex lp with
  | None => lp
  | Some a =>
      {| lp_heap := delete a (lp_heap lp);
         lp_list := filter (λ b, b ≠ a) (lp_list lp);
         lp_severities := lp_severities lp |}
  end.

Definition lp_DeleteAllItems (lp : LIST_PROVIDER) : LIST_PROVIDER :=
  {| lp_heap := ∅; lp_list := []; lp_severities := lp_severities lp |}.

Definition lp_item_at (lp : LIST_PROVIDER) (a : ptr)
    : option (RC_ITEM KIID) :=
  fst <$> lp_heap lp !! a.

Global Instance list_provider : Provider.RC_ITEMS_PROVIDER KIID LIST_PROVIDER :=
  {| Provider.SetSeverities := lp_SetSeverities;
     Provider.GetCount := lp_GetCount;
     Provider.GetItem := lp_GetItem;
     Provider.DeleteItem := lp_DeleteItem;
     Provider.DeleteAllItems := lp_DeleteAllItems;
     Provider.item_at := lp_item_at |}.


(** After the filter is set to [M], counting with [M] and counting the
    filtered subset agree. *)
Lemma lp_count_filter (M : Z) (lp : LIST_PROVIDER) :
  lp_GetCount M (lp_SetSeverities M lp)
    = lp_GetCount (-1) (lp_SetSeverities M lp).
Proof.
  unfold lp_GetCount. cbn [lp_severities lp_SetSeverities].
  repeat case_bool_decide; (reflexivity || lia).
Qed.

(** Every index below the count yields a pointer to a stored item. *)
Lemma lp_items_live (i : Z) (lp : LIST_PROVIDER) :
  0 ≤ i < lp_GetCount (-1) lp →
  is_Some (lp_item_at lp (lp_GetItem i lp)).
Proof.
  unfold lp_GetCount, lp_GetItem, lp_index, lp_item_at.
  rewrite (bool_decide_eq_true_2 (-1 < 0)) by lia. intros [H0 Hlt].
  rewrite (bool_decide_eq_true_2 (0 ≤ i)) by lia.
  destruct (lookup_lt_is_Some_2 (filtered (lp_severities lp) lp)
              (Z.to_nat i)) as [a Ha]; [lia|].
  rewrite Ha. simpl.
  apply list_elem_of_lookup_2, list_elem_of_filter in Ha as [Hshown _].
  unfold shown in Hshown.
  destruct (lp_heap lp !! a) as [[it sev]|]; [by eexists | done].
Qed.

(** Deleting one item leaves every other stored item as it was. *)
Lemma lp_DeleteItem_untouched (i : Z) (d : bool) (lp : LIST_PROVIDER)
    (a : ptr) (it : RC_ITEM KIID) :
  lp_item_at (lp_DeleteItem i d lp) a = Some it → lp_item_at lp a = Some it.
Proof.
  unfold lp_DeleteItem, lp_item_at.
  destruct (lp_index i lp) as [b|]; [simpl | done].
  destruct (decide (b = a)) as [->|Hne].
  - by rewrite lookup_delete_eq.
  - by rewrite lookup_delete_ne.
Qed.

Lemma lp_DeleteItem_list (i : Z) (d : bool) (lp : LIST_PROVIDER) (a : ptr) :
  lp_index i lp = Some a →
  lp_list (lp_DeleteItem i d lp) = filter (λ b, b ≠ a) (lp_list lp) ∧
  lp_heap (lp_DeleteItem i d lp) = delete a (lp_heap lp).
Proof. unfold lp_DeleteItem. intros ->. split; reflexivity. Qed.

Lemma lp_DeleteAllItems_count (s : Z) (lp : LIST_PROVIDER) :
  lp_GetCount s (lp_DeleteAllItems lp) = 0.
Proof. reflexivity. Qed.

(** Deleting by index leaves the item behind every other pointer as it
    was, present or not. *)
Lemma lp_DeleteItem_others (i : Z) (d : bool) (lp : LIST_PROVIDER) (a : ptr) :
  a ≠ lp_GetItem i lp →
  lp_item_at (lp_DeleteItem i d lp) a = lp_item_at lp a.
Proof.
  unfold lp_DeleteItem, lp_GetItem, lp_item_at.
  destruct (lp_index i lp) as [b|]; simpl; [|done].
  intros Hne. by rewrite lookup_delete_ne.
Qed.


End WithKIID.

Arguments LIST_PROVIDER : clear implicits.

End ListProvider.

(** ** A provider that counts one severity *)

Module SeverityProvider.
Import RcItem ListProvider.
Section WithKIID.
Context {KIID : Type}.

(** Modelled from the spec: the concrete providers are outside the
    sources.  The interface is "count(severityOrAll) -> int", in the
    header [GetCount( int aSeverity = -1 )].  This provider stores its
    items as the list-backed one does; its count with the default
    argument is that of the filtered subset, and its count with an
    argument that is not negative is the number of stored items whose
    severity is that one severity. *)
Record SEVERITY_PROVIDER : Type := { sp_items : LIST_PROVIDER KIID }.

Definition has_severity (heap : gmap N (RC_ITEM KIID * Z)) (aSeverity : Z)
    (a : ptr) : bool :=
  match heap !! a with
  | Some (_, sev) => bool_decide (sev = aSeverity)
  | None => false
  end.

Definition sp_GetCount (aSeverity : Z) (sp : SEVERITY_PROVIDER) : Z :=
  if bool_decide (aSeverity < 0) then lp_GetCount aSeverity (sp_items sp)
  else Z.of_nat (length
         (filter (λ a, has_severity (lp_heap (sp_items sp)) aSeverity a = true)
                 (lp_list (sp_items sp)))).

Global Instance severity_provider
    : Provider.RC_ITEMS_PROVIDER KIID SEVERITY_PROVIDER :=
  {| Provider.SetSeverities M sp :=
       {| sp_items := lp_SetSeverities M (sp_items sp) |};
     Provider.GetCount := sp_GetCount;
     Provider.GetItem i sp := lp_GetItem i (sp_items sp);
     Provider.DeleteItem i d sp :=
       {| sp_items := lp_DeleteItem i d (sp_items sp) |};
     Provider.DeleteAllItems sp :=
       {| sp_items := lp_DeleteAllItems (sp_items sp) |};
     Provider.item_at sp := lp_item_at (sp_items sp) |}.

(** Every index below the filtered count yields a stored item. *)
Lemma sp_items_live (i : Z) (sp : SEVERITY_PROVIDER) :
  0 ≤ i < sp_GetCount (-1) sp →
  is_Some (lp_item_at (sp_items sp) (lp_GetItem i (sp_items sp))).
Proof.
  unfold sp_GetCount. rewrite (bool_decide_eq_true_2 (-1 < 0)) by lia.
  apply lp_items_live.
Qed.

End WithKIID.

Arguments SEVERITY_PROVIDER : clear implicits.

End SeverityProvider.

(** ** RC_TREE_NODE and RC_TREE_MODEL (common/rc_item.h) *)

Module RcTreeModel.
Import RcItem.

(** wxDataViewItem (wx/dataview.h) wraps one [void*]. *)
Record wxDataViewItem : Type := { GetID : ptr }.

Global Instance wxDataViewItem_eq_dec : EqDecision wxDataViewItem.
Proof. solve_decision. Defined.

(** RC_TREE_MODEL::ToItem and RC_TREE_MODEL::ToNode: both casts keep the
    address. *)
Definition ToItem (aNode : ptr) : wxDataViewItem := {| GetID := aNode |}.
Definition ToNode (aItem : wxDataViewItem) : ptr := GetID aItem.

Inductive NODE_TYPE : Type := MARKER | MAIN_ITEM | AUX_ITEM.

Local Set Warnings "-register-all".

Global Instance NODE_TYPE_eq_dec : EqDecision NODE_TYPE.
Proof. solve_decision. Defined.

(** A node owns its children, so the tree is an inductive value.  The
    address of the node object itself ([this], what ToItem exposes) is kept
    in [node_addr]; [m_Parent] is a non-owning address. *)
Inductive RC_TREE_NODE : Type := Build_RC_TREE_NODE {
  node_addr  : ptr;
  m_Type     : NODE_TYPE;
  m_RcItem   : ptr;                 (* RC_ITEM* *)
  m_Parent   : ptr;                 (* RC_TREE_NODE* *)
  m_Children : list RC_TREE_NODE;
}.

(** [new RC_TREE_NODE( aParent, aRcItem, aType )] placed at [addr]. *)
Definition RC_TREE_NODE_new (addr aParent aRcItem : ptr) (aType : NODE_TYPE)
    : RC_TREE_NODE :=
  {| node_addr := addr; m_Type := aType; m_RcItem := aRcItem;
     m_Parent := aParent; m_Children := [] |}.

(** A node and all its descendants, parents first. *)
Fixpoint subtree (n : RC_TREE_NODE) : list RC_TREE_NODE :=
  n :: (m_Children n ≫= subtree).

(** Number of levels below and including a node. *)
Fixpoint depth (n : RC_TREE_NODE) : nat :=
  S (foldr Nat.max 0%nat (map depth (m_Children n))).

Definition child_kinds (n : RC_TREE_NODE) : list NODE_TYPE :=
  m_Type <$> m_Children n.

(** What the model tells the view. *)
Inductive view_event : Type :=
  | ItemChanged (item : wxDataViewItem)
  | ItemDeleted (parent item : wxDataViewItem).

Section Model.
Context {KIID : Type} `{!EqDecision KIID} (niluuid : KIID).
Context {wxVariant : Type}.
Context {P : Type} `{!Provider.RC_ITEMS_PROVIDER KIID P}.

(** The members of RC_TREE_MODEL.  [m_heapTop] is the highest address
    [new] has handed out for a node so far, and [m_notified] the
    notifications sent to the view, oldest first. *)
Record RC_TREE_MODEL : Type := {
  m_editFrame       : ptr;
  m_view            : ptr;
  m_severities      : Z;
  m_rcItemsProvider : option P;
  m_tree            : list RC_TREE_NODE;
  m_heapTop         : N;
  m_notified        : list view_event;
}.

(** [int GetDRCItemCount() const { return m_tree.size(); }] *)
Definition GetDRCItemCount (m : RC_TREE_MODEL) : Z :=
  to_int (Z.of_nat (length (m_tree m))).

Definition GetColumnCount (m : RC_TREE_MODEL) : Z := 1.
Definition GetColumnType (m : RC_TREE_MODEL) (aCol : Z) : string := "string".
Definition HasContainerColumns (m : RC_TREE_MODEL) (aItem : wxDataViewItem)
    : bool := true.

(** [SetValue]: editing is not supported. *)
Definition SetValue (aVariant : wxVariant) (aItem : wxDataViewItem)
    (aCol : Z) (m : RC_TREE_MODEL) : bool * RC_TREE_MODEL :=
  (false, m).

(** All nodes that are alive in the model. *)
Definition live_nodes (tree : list RC_TREE_NODE) : list RC_TREE_NODE :=
  tree ≫= subtree.

(** Dereference of a node pointer: the live node at that address. *)
Definition node_at (a : ptr) (tree : list RC_TREE_NODE)
    : option RC_TREE_NODE :=
  snd <$> list_find (λ n, node_addr n = a) (live_nodes tree).

(** Modelled from the spec: the body of rebuildModel is in rc_item.cpp,
    which is not among the sources.  One item becomes one Group node;
    "if it has a main-entity identifier, add one MainEntity leaf; if it
    additionally has a non-nil auxiliary identifier, add one AuxEntity
    leaf after the main leaf".  The group is allocated at [g], its leaves
    at the addresses that follow. *)
Definition leaves_for (g item : ptr) (it : RC_ITEM KIID)
    : list RC_TREE_NODE :=
  if decide (GetMainItemID it = niluuid) then []
  else RC_TREE_NODE_new (g + 1)%N g item MAIN_ITEM
       :: (if decide (GetAuxItemID it = niluuid) then []
           else [RC_TREE_NODE_new (g + 2)%N g item AUX_ITEM]).

Definition group_for (top : N) (item : ptr) (it : RC_ITEM KIID)
    : RC_TREE_NODE :=
  {| node_addr := N.succ top; m_Type := MARKER; m_RcItem := item;
     m_Parent := nullptr;
     m_Children := leaves_for (N.succ top) item it |}.

(** Highest address in use once a group and its leaves are allocated. *)
Definition top_after (g : RC_TREE_NODE) : N :=
  (node_addr g + N.of_nat (length (m_Children g)))%N.

(** Modelled from the spec: the loop of rebuildModel, "iterate the
    provider's filtered item range in index order (index 0..count-1)";
    [n] is the number of indices still to visit, [i] the next index.
    Reading an item through a pointer that holds none has no defined
    result: [None]. *)
Fixpoint build_from (p : P) (i : Z) (n : nat) (top : N)
    : option (list RC_TREE_NODE * N) :=
  match n with
  | O => Some ([], top)
  | S n' =>
      match Provider.item_at p (Provider.GetItem i p) with
      | None => None
      | Some it =>
          let g := group_for top (Provider.GetItem i p) it in
          match build_from p (i + 1) n' (top_after g) with
          | None => None
          | Some (rest, top') => Some (g :: rest, top')
          end
      end
  end.

(** Modelled from the spec: rebuildModel (rc_item.cpp is not among the
    sources).  The mask is stored and propagated to the provider, the old
    tree is dropped, and the tree is rebuilt from the provider's filtered
    range; without a provider the tree is empty. *)
Definition rebuildModel (aProvider : option P) (aSeverities : Z)
    (m : RC_TREE_MODEL) : option RC_TREE_MODEL :=
  match aProvider with
  | None =>
      Some {| m_editFrame := m_editFrame m; m_view := m_view m;
              m_severities := aSeverities; m_rcItemsProvider := None;
              m_tree := []; m_heapTop := m_heapTop m;
              m_notified := m_notified m |}
  | Some p0 =>
      let p := Provider.SetSeverities aSeverities p0 in
      match build_from p 0 (Z.to_nat (Provider.GetCount_default p))
              (m_heapTop m) with
      | None => None
      | Some (tree, top) =>
          Some {| m_editFrame := m_editFrame m; m_view := m_view m;
                  m_severities := aSeverities;
                  m_rcItemsProvider := Some p;
                  m_tree := tree; m_heapTop := top;
                  m_notified := m_notified m |}
      end
  end.

(** Modelled from the spec: attachProvider "replaces the current data
    source; rebuilds the tree using the currently configured severity
    filter". *)
Definition SetProvider (aProvider : P) (m : RC_TREE_MODEL)
    : option RC_TREE_MODEL :=
  rebuildModel (Some aProvider) (m_severities m) m.

(** Modelled from the spec: setSeverityFilter "stores the bitmask of
    severities to display, propagates it to the provider, then rebuilds
    the tree". *)
Definition SetSeverities (aSeverities : Z) (m : RC_TREE_MODEL)
    : option RC_TREE_MODEL :=
  rebuildModel (m_rcItemsProvider m) aSeverities m.

Definition handles (nodes : list RC_TREE_NODE) : list wxDataViewItem :=
  (λ n, ToItem (node_addr n)) <$> nodes.

(** Modelled from the spec: getChildren (body in rc_item.cpp) "for the
    sentinel root, yields all Group nodes in insertion order; for a Group
    node, yields its leaf children; for a leaf, yields nothing.  Returns
    the count yielded."  The yielded handles are appended to the array
    the caller passes.  A handle that is neither the sentinel nor a live
    node has no defined result. *)
Definition GetChildren (aItem : wxDataViewItem)
    (aChildren : list wxDataViewItem) (m : RC_TREE_MODEL)
    : option (Z * list wxDataViewItem) :=
  if decide (ToNode aItem = nullptr) then
    Some (Z.of_nat (length (m_tree m)), aChildren ++ handles (m_tree m))
  else
    match node_at (ToNode aItem) (m_tree m) with
    | None => None
    | Some n => Some (Z.of_nat (length (m_Children n)),
                      aChildren ++ handles (m_Children n))
    end.

(** Modelled from the spec: notifyNodeChanged is a "pass-through to the
    consuming view layer; no internal rebuild is performed". *)
Definition ValueChanged (aNode : ptr) (m : RC_TREE_MODEL) : RC_TREE_MODEL :=
  {| m_editFrame := m_editFrame m; m_view := m_view m;
     m_severities := m_severities m;
     m_rcItemsProvider := m_rcItemsProvider m;
     m_tree := m_tree m; m_heapTop := m_heapTop m;
     m_notified := m_notified m ++ [ItemChanged (ToItem aNode)] |}.

(** A group owns the node at address [a] when it is that node or one of
    its children is. *)
Definition owns (a : ptr) (g : RC_TREE_NODE) : Prop :=
  node_addr g = a ∨ a ∈ node_addr <$> m_Children g.

Global Instance owns_dec a g : Decision (owns a g).
Proof. unfold owns. apply _. Defined.

(** Position in [m_tree] of the group owning the node at [a]. *)
Definition owning_group (a : ptr) (tree : list RC_TREE_NODE)
    : option (nat * RC_TREE_NODE) :=
  list_find (owns a) tree.

(** First provider index in [i, i + n) whose item is [item]. *)
Fixpoint find_index_from (p : P) (item : ptr) (i : Z) (n : nat) : option Z :=
  match n with
  | O => None
  | S n' => if decide (Provider.GetItem i p = item) then Some i
            else find_index_from p item (i + 1) n'
  end.

Definition provider_index_of (p : P) (item : ptr) : option Z :=
  find_index_from p item 0 (Z.to_nat (Provider.GetCount_default p)).

(** The group (with its position) and provider index a selection maps
    to, if any. *)
Definition selected_index (aCurrent : wxDataViewItem) (p : P)
    (tree : list RC_TREE_NODE) : option (nat * RC_TREE_NODE * Z) :=
  match owning_group (ToNode aCurrent) tree with
  | None => None
  | Some (k, g) =>
      match provider_index_of p (m_RcItem g) with
      | None => None
      | Some i => Some (k, g, i)
      end
  end.

(** Modelled from the spec: deleteSelected (body in rc_item.cpp), with
    the view's current item passed in: it "determines its owning Group
    node, asks the provider to delete that item by its original index
    with the given deep flag, removes the corresponding Group node and
    its children from the in-memory tree, and updates the view"; "if a
    requested node cannot be mapped back to a valid provider index ...
    the delete operation is a no-op".  The index is the first one in the
    provider's filtered range whose item is the item the group wraps. *)
Definition DeleteCurrentItem (aDeep : bool) (aCurrent : wxDataViewItem)
    (m : RC_TREE_MODEL) : RC_TREE_MODEL :=
  match m_rcItemsProvider m with
  | None => m
  | Some p =>
      match selected_index aCurrent p (m_tree m) with
      | None => m
      | Some (k, g, i) =>
          {| m_editFrame := m_editFrame m; m_view := m_view m;
             m_severities := m_severities m;
             m_rcItemsProvider := Some (Provider.DeleteItem i aDeep p);
             m_tree := delete k (m_tree m);
             m_heapTop := m_heapTop m;
             m_notified := m_notified m
               ++ [ItemDeleted (ToItem nullptr) (ToItem (node_addr g))] |}
      end
  end.

(** Modelled from the spec: deleteAll "asks the provider to delete every
    item, then clears the entire in-memory tree to empty". *)
Definition DeleteAllItems (m : RC_TREE_MODEL) : RC_TREE_MODEL :=
  {| m_editFrame := m_editFrame m; m_view := m_view m;
     m_severities := m_severities m;
     m_rcItemsProvider := Provider.DeleteAllItems <$> m_rcItemsProvider m;
     m_tree := []; m_heapTop := m_heapTop m;
     m_notified := m_notified m |}.


(** *** Specification predicates: the shape of the tree *)

Definition allowed_kinds : list (list NODE_TYPE) :=
  [[]; [MAIN_ITEM]; [MAIN_ITEM; AUX_ITEM]].

Definition leaf_ok (g c : RC_TREE_NODE) : Prop :=
  m_Children c = [] ∧ m_Parent c = node_addr g ∧ m_RcItem c = m_RcItem g.

(** A leaf of either kind is only present when the item the group wraps
    has the corresponding identifier. *)
Definition leaves_justified (prov : option P) (g : RC_TREE_NODE) : Prop :=
  ∀ p it, prov = Some p →
    Provider.item_at p (m_RcItem g) = Some it →
    (MAIN_ITEM ∈ child_kinds g → GetMainItemID it ≠ niluuid) ∧
    (AUX_ITEM ∈ child_kinds g → GetAuxItemID it ≠ niluuid).

Definition group_ok (prov : option P) (g : RC_TREE_NODE) : Prop :=
  m_Type g = MARKER ∧ m_Parent g = nullptr ∧
  child_kinds g ∈ allowed_kinds ∧
  Forall (leaf_ok g) (m_Children g) ∧
  leaves_justified prov g.

(** The inductive invariant: every top-level node is a well-formed
    group. *)
Definition model_ok (m : RC_TREE_MODEL) : Prop :=
  Forall (group_ok (m_rcItemsProvider m)) (m_tree m).

(** The tree-shape invariant in the words of the data model. *)
Definition shape_invariant (m : RC_TREE_MODEL) : Prop :=
  (∀ n, n ∈ live_nodes (m_tree m) →
     m_Type n ≠ MARKER → m_Children n = []) ∧
  (∀ n, n ∈ live_nodes (m_tree m) →
     m_Type n = MARKER →
     (length (m_Children n) ≤ 2)%nat ∧
     child_kinds n `sublist_of` [MAIN_ITEM; AUX_ITEM] ∧
     leaves_justified (m_rcItemsProvider m) n) ∧
  (∀ g, g ∈ m_tree m → (depth g ≤ 2)%nat).

(** The calls a client can make on the model, as data. *)
Inductive model_call : Type :=
  | CallSetProvider (aProvider : P)
  | CallSetSeverities (aSeverities : Z)
  | CallValueChanged (aNode : ptr)
  | CallDeleteCurrentItem (aDeep : bool) (aCurrent : wxDataViewItem)
  | CallDeleteAllItems
  | CallSetValue (aVariant : wxVariant) (aItem : wxDataViewItem) (aCol : Z).

Definition call (c : model_call) (m : RC_TREE_MODEL)
    : option RC_TREE_MODEL :=
  match c with
  | CallSetProvider p => SetProvider p m
  | CallSetSeverities s => SetSeverities s m
  | CallValueChanged n => Some (ValueChanged n m)
  | CallDeleteCurrentItem d cur => Some (DeleteCurrentItem d cur m)
  | CallDeleteAllItems => Some (DeleteAllItems m)
  | CallSetValue v item col => Some (snd (SetValue v item col m))
  end.

Fixpoint calls (cs : list model_call) (m : RC_TREE_MODEL)
    : option RC_TREE_MODEL :=
  match cs with
  | [] => Some m
  | c :: cs' =>
      match call c m with
      | None => None
      | Some m' => calls cs' m'
      end
  end.

(** The provider's side of a delete: "the provider's remaining items are
    otherwise untouched". *)
Definition DeleteItem_keeps_items : Prop :=
  ∀ (i : Z) (d : bool) (p : P) (a : ptr) (it : RC_ITEM KIID),
    Provider.item_at (Provider.DeleteItem i d p) a = Some it →
    Provider.item_at p a = Some it.

(** *** Specification predicates: the provider's side of a rebuild *)

(** What the provider owes the model in a given state: the count of the
    filtered subset is an [int] that is not negative, and every index
    below it yields a pointer to an item. *)
Record provider_ok (p : P) : Prop := {
  count_in_range : 0 ≤ Provider.GetCount_default p ≤ INT_MAX;
  items_live : ∀ i, 0 ≤ i < Provider.GetCount_default p →
                 is_Some (Provider.item_at p (Provider.GetItem i p));
}.

(** The kinds of leaves an item calls for, main entity first. *)
Definition expected_kinds (it : RC_ITEM KIID) : list NODE_TYPE :=
  if decide (GetMainItemID it = niluuid) then []
  else if decide (GetAuxItemID it = niluuid) then [MAIN_ITEM]
       else [MAIN_ITEM; AUX_ITEM].

Definition addrs (tree : list RC_TREE_NODE) : list ptr :=
  node_addr <$> live_nodes tree.

(** *** Handles and editing (code of the header) *)

(** C8: the conversions between node pointers and view items are inverse
    to each other, in both directions. *)
Theorem ToNode_ToItem_roundtrip :
  (∀ n : ptr, ToNode (ToItem n) = n) ∧
  (∀ h : wxDataViewItem, ToItem (ToNode h) = h) ∧
  (∀ n n' : ptr, ToItem n = ToItem n' → n = n').
Proof.
  split; [reflexivity|]. split.
  - intros [id]. reflexivity.
  - intros n n' Heq. by injection Heq.
Qed.

(** C7: SetValue answers false for every value, item and column, and the
    model it leaves is the model it was given. *)
Theorem SetValue_rejects_edit
    (aVariant : wxVariant) (aItem : wxDataViewItem) (aCol : Z)
    (m : RC_TREE_MODEL) :
  fst (SetValue aVariant aItem aCol m) = false ∧
  snd (SetValue aVariant aItem aCol m) = m.
Proof. unfold SetValue. split; reflexivity. Qed.

(** *** The shape of the tree *)

Lemma kinds_of_leaves (g item : ptr) (it : RC_ITEM KIID) :
  m_Type <$> leaves_for g item it =
    if decide (GetMainItemID it = niluuid) then []
    else if decide (GetAuxItemID it = niluuid) then [MAIN_ITEM]
         else [MAIN_ITEM; AUX_ITEM].
Proof. unfold leaves_for. repeat case_decide; reflexivity. Qed.

Lemma group_for_ok (p : P) (top : N) (item : ptr) (it : RC_ITEM KIID) :
  Provider.item_at p item = Some it →
  group_ok (Some p) (group_for top item it).
Proof.
  intros Hit. unfold group_ok, child_kinds, leaves_justified, child_kinds.
  cbn [group_for m_Type m_Parent m_Children m_RcItem node_addr].
  split; [reflexivity|]. split; [reflexivity|]. split; [|split].
  - rewrite kinds_of_leaves. unfold allowed_kinds.
    repeat case_decide; set_solver.
  - unfold leaves_for, leaf_ok.
    repeat case_decide; repeat constructor.
  - intros p' it' Hp' Hit'. simplify_eq. rewrite kinds_of_leaves.
    repeat case_decide; split; intros Hin;
      decompose_list_elem_of; done.
Qed.

Lemma build_from_ok (p : P) (n : nat) :
  ∀ (i : Z) (top : N) tree top',
    build_from p i n top = Some (tree, top') →
    Forall (group_ok (Some p)) tree.
Proof.
  induction n as [|n IH]; intros i top tree top'; simpl.
  - intros [= <- _]. constructor.
  - destruct (Provider.item_at p (Provider.GetItem i p)) as [it|] eqn:Hit;
      [|done].
    destruct (build_from p (i + 1) n _) as [[rest top'']|] eqn:Hrest;
      [|done].
    intros [= <- _]. constructor.
    + by apply group_for_ok.
    + by eapply IH.
Qed.

Lemma rebuildModel_ok (prov : option P) (sev : Z) (m m' : RC_TREE_MODEL) :
  rebuildModel prov sev m = Some m' → model_ok m'.
Proof.
  unfold rebuildModel, model_ok. destruct prov as [p0|].
  - destruct (build_from _ _ _ _) as [[tree top]|] eqn:Hb; [|done].
    intros [= <-]. simpl. by eapply build_from_ok.
  - intros [= <-]. simpl. constructor.
Qed.

Lemma group_ok_weaken (prov prov' : option P) (g : RC_TREE_NODE) :
  (∀ p' it, prov' = Some p' →
     Provider.item_at p' (m_RcItem g) = Some it →
     ∃ p, prov = Some p ∧ Provider.item_at p (m_RcItem g) = Some it) →
  group_ok prov g → group_ok prov' g.
Proof.
  intros Hback (Ht & Hp & Hk & Hl & Hj).
  split; [done|]. split; [done|]. split; [done|]. split; [done|].
  intros p' it Hp' Hit.
  destruct (Hback _ _ Hp' Hit) as (p0 & Hp0 & Hit0).
  exact (Hj _ _ Hp0 Hit0).
Qed.

Lemma DeleteCurrentItem_ok (d : bool) (cur : wxDataViewItem)
    (m : RC_TREE_MODEL) :
  DeleteItem_keeps_items →
  model_ok m → model_ok (DeleteCurrentItem d cur m).
Proof.
  intros Hkeep Hok. unfold DeleteCurrentItem.
  destruct (m_rcItemsProvider m) as [p|] eqn:Hp; [|done].
  destruct (selected_index cur p (m_tree m)) as [[[k g] i]|]; [|done].
  unfold model_ok in *. simpl. rewrite Hp in Hok.
  apply Forall_delete.
  eapply Forall_impl; [exact Hok|]. intros g' Hg'.
  eapply group_ok_weaken; [|exact Hg'].
  intros p' it Hp' Hit. simplify_eq. exists p. split; [done|].
  by eapply Hkeep.
Qed.

Lemma call_ok (c : model_call) (m m' : RC_TREE_MODEL) :
  DeleteItem_keeps_items →
  model_ok m → call c m = Some m' → model_ok m'.
Proof.
  intros Hkeep Hok. destruct c; simpl.
  - apply rebuildModel_ok.
  - apply rebuildModel_ok.
  - intros [= <-]. exact Hok.
  - intros [= <-]. by apply DeleteCurrentItem_ok.
  - intros [= <-]. constructor.
  - intros [= <-]. exact Hok.
Qed.

Lemma calls_ok (cs : list model_call) :
  DeleteItem_keeps_items →
  ∀ m m', model_ok m → calls cs m = Some m' → model_ok m'.
Proof.
  intros Hkeep. induction cs as [|c cs IH]; intros m m' Hok; simpl.
  - by intros [= <-].
  - destruct (call c m) as [m1|] eqn:Hc; [|done].
    apply IH. by eapply call_ok.
Qed.

Lemma subtree_leaf (c : RC_TREE_NODE) : m_Children c = [] → subtree c = [c].
Proof. destruct c as [a t i q cs]. simpl. by intros ->. Qed.

Lemma leaves_flat (g : RC_TREE_NODE) (cs : list RC_TREE_NODE) :
  Forall (leaf_ok g) cs → cs ≫= subtree = cs.
Proof.
  induction 1 as [|c cs [Hc _] _ IH]; [reflexivity|].
  rewrite bind_cons, IH, (subtree_leaf c Hc). reflexivity.
Qed.

Lemma subtree_group (prov : option P) (g : RC_TREE_NODE) :
  group_ok prov g → subtree g = g :: m_Children g.
Proof.
  intros (_ & _ & _ & Hl & _). destruct g as [a t i q cs]. simpl in *.
  by rewrite (leaves_flat _ _ Hl).
Qed.

Lemma allowed_kinds_cases (ks : list NODE_TYPE) :
  ks ∈ allowed_kinds →
  ks = [] ∨ ks = [MAIN_ITEM] ∨ ks = [MAIN_ITEM; AUX_ITEM].
Proof.
  unfold allowed_kinds. intros Hin. decompose_list_elem_of; auto.
Qed.

Lemma leaf_kind (prov : option P) (g c : RC_TREE_NODE) :
  group_ok prov g → c ∈ m_Children g → m_Type c ≠ MARKER.
Proof.
  intros (_ & _ & Hk & _) Hc.
  apply (list_elem_of_fmap_2 m_Type) in Hc. fold (child_kinds g) in Hc.
  destruct (allowed_kinds_cases _ Hk) as [E|[E|E]]; rewrite E in Hc;
    decompose_list_elem_of; congruence.
Qed.

Lemma live_node_cases (m : RC_TREE_MODEL) (n : RC_TREE_NODE) :
  model_ok m → n ∈ live_nodes (m_tree m) →
  ∃ g, g ∈ m_tree m ∧ group_ok (m_rcItemsProvider m) g ∧
       (n = g ∨ n ∈ m_Children g).
Proof.
  intros Hok Hn. unfold live_nodes in Hn.
  apply list_elem_of_bind in Hn as (g & Hn & Hg).
  pose proof (proj1 (Forall_forall _ _) Hok g Hg) as Hgok.
  exists g. split; [done|]. split; [done|].
  rewrite (subtree_group _ _ Hgok) in Hn.
  apply elem_of_cons in Hn. exact Hn.
Qed.

Lemma leaves_depth (g : RC_TREE_NODE) (cs : list RC_TREE_NODE) :
  Forall (leaf_ok g) cs → (foldr Nat.max 0 (map depth cs) ≤ 1)%nat.
Proof.
  induction 1 as [|c cs [Hc _] _ IH]; simpl; [lia|].
  destruct c as [a t i q cs']. simpl in *. subst cs'. simpl. lia.
Qed.

Lemma group_depth (prov : option P) (g : RC_TREE_NODE) :
  group_ok prov g → (depth g ≤ 2)%nat.
Proof.
  intros (_ & _ & _ & Hl & _). destruct g as [a t i q cs]. simpl in *.
  pose proof (leaves_depth _ _ Hl). lia.
Qed.

Lemma group_children_bound (prov : option P) (g : RC_TREE_NODE) :
  group_ok prov g →
  (length (m_Children g) ≤ 2)%nat ∧
  child_kinds g `sublist_of` [MAIN_ITEM; AUX_ITEM].
Proof.
  intros (_ & _ & Hk & _).
  assert (length (m_Children g) = length (child_kinds g)) as ->
    by (unfold child_kinds; by rewrite length_fmap).
  destruct (allowed_kinds_cases _ Hk) as [E|[E|E]]; rewrite E; simpl.
  - split; [lia | apply sublist_nil_l].
  - split; [lia | apply sublist_skip, sublist_nil_l].
  - split; [lia | reflexivity].
Qed.

Lemma model_ok_shape (m : RC_TREE_MODEL) : model_ok m → shape_invariant m.
Proof.
  intros Hok. split; [|split].
  - intros n Hn Hty.
    destruct (live_node_cases m n Hok Hn) as (g & _ & Hg & [->|Hc]).
    + by destruct Hg as (Hm & _).
    + destruct Hg as (_ & _ & _ & Hl & _).
      by destruct (proj1 (Forall_forall _ _) Hl n Hc) as (? & _).
  - intros n Hn Hty.
    destruct (live_node_cases m n Hok Hn) as (g & _ & Hg & [->|Hc]).
    + destruct (group_children_bound _ _ Hg) as [Hlen Hsub].
      split; [done|]. split; [done|]. by destruct Hg as (_ & _ & _ & _ & Hj).
    + by destruct (leaf_kind _ _ _ Hg Hc).
  - intros g Hg.
    eapply group_depth. exact (proj1 (Forall_forall _ _) Hok g Hg).
Qed.

(** C2: starting from a model whose tree is empty, after any sequence of
    calls (rebuilds through SetProvider and SetSeverities, deletes,
    change notifications, rejected edits) every MAIN_ITEM or AUX_ITEM
    node has no children, every MARKER node has at most two children
    whose kinds form a sub-sequence of [MAIN_ITEM; AUX_ITEM], a leaf of a
    kind being present only when the wrapped item has that identifier,
    and no group is deeper than two levels.  The provider is assumed to
    leave the items it keeps untouched when it deletes one. *)
Theorem tree_shape_preserved
    (cs : list model_call) (m0 m : RC_TREE_MODEL) :
  DeleteItem_keeps_items →
  m_tree m0 = [] →
  calls cs m0 = Some m →
  shape_invariant m.
Proof.
  intros Hkeep Hempty Hrun. apply model_ok_shape.
  eapply calls_ok; [exact Hkeep | | exact Hrun].
  unfold model_ok. rewrite Hempty. constructor.
Qed.

(** *** What a rebuild produces *)

Lemma build_from_total (p : P) (n : nat) :
  ∀ (i : Z) (top : N),
    (∀ j, i ≤ j < i + Z.of_nat n →
          is_Some (Provider.item_at p (Provider.GetItem j p))) →
    is_Some (build_from p i n top).
Proof.
  induction n as [|n IH]; intros i top Hlive; simpl; [by eexists|].
  destruct (Hlive i) as [it ->]; [lia|].
  destruct (IH (i + 1) (top_after (group_for top (Provider.GetItem i p) it)))
    as [[rest top'] ->]; [|by eexists].
  intros j Hj. apply Hlive. lia.
Qed.

Lemma build_from_items (p : P) (n : nat) :
  ∀ (i : Z) (top : N) tree top',
    build_from p i n top = Some (tree, top') →
    length tree = n ∧
    ∀ k, (k < n)%nat →
      ∃ g it, tree !! k = Some g ∧
        Provider.item_at p (Provider.GetItem (i + Z.of_nat k) p) = Some it ∧
        m_Type g = MARKER ∧
        m_RcItem g = Provider.GetItem (i + Z.of_nat k) p ∧
        child_kinds g = expected_kinds it.
Proof.
  induction n as [|n IH]; intros i top tree top'; simpl.
  - intros [= <- _]. split; [reflexivity | intros k Hk; lia].
  - destruct (Provider.item_at p (Provider.GetItem i p)) as [it|] eqn:Hit;
      [|done].
    destruct (build_from p (i + 1) n _) as [[rest top'']|] eqn:Hrest;
      [|done].
    intros [= <- _]. destruct (IH _ _ _ _ Hrest) as [Hlen Hrest_items].
    split; [simpl; by rewrite Hlen|].
    intros [|k] Hk.
    + exists (group_for top (Provider.GetItem i p) it), it.
      rewrite Z.add_0_r. repeat split; try done.
      apply kinds_of_leaves.
    + destruct (Hrest_items k) as (g & it' & Hg & Hit' & Hrest'); [lia|].
      exists g, it'.
      replace (i + Z.of_nat (S k)) with (i + 1 + Z.of_nat k) by lia.
      split; [done|]. split; [done|]. exact Hrest'.
Qed.

Lemma group_for_addrs (top : N) (item : ptr) (it : RC_ITEM KIID) :
  NoDup (node_addr <$> subtree (group_for top item it)) ∧
  ∀ a, a ∈ node_addr <$> subtree (group_for top item it) →
       (top < a ≤ top_after (group_for top item it))%N.
Proof.
  unfold top_after, group_for, leaves_for. simpl.
  repeat case_decide; simpl; split.
  all: try (intros a Ha; decompose_list_elem_of; lia).
  all: repeat (apply NoDup_cons; split;
               [rewrite ?elem_of_cons, elem_of_nil; lia|]).
  all: apply NoDup_nil_2.
Qed.

Lemma group_for_top (top : N) (item : ptr) (it : RC_ITEM KIID) :
  (top < top_after (group_for top item it))%N.
Proof. unfold top_after, group_for. simpl. lia. Qed.

Lemma build_from_addrs (p : P) (n : nat) :
  ∀ (i : Z) (top : N) tree top',
    build_from p i n top = Some (tree, top') →
    (top ≤ top')%N ∧ NoDup (addrs tree) ∧
    ∀ a, a ∈ addrs tree → (top < a ≤ top')%N.
Proof.
  induction n as [|n IH]; intros i top tree top'; simpl.
  - intros [= <- <-]. split; [lia|]. split; [apply NoDup_nil_2|].
    intros a Ha. by apply elem_of_nil in Ha.
  - destruct (Provider.item_at p (Provider.GetItem i p)) as [it|] eqn:Hit;
      [|done].
    destruct (build_from p (i + 1) n _) as [[rest top'']|] eqn:Hrest;
      [|done].
    intros [= <- <-].
    destruct (IH _ _ _ _ Hrest) as (Hle & Hnd & Hbnd).
    destruct (group_for_addrs top (Provider.GetItem i p) it) as [Hg Hgb].
    pose proof (group_for_top top (Provider.GetItem i p) it) as Hgt.
    unfold addrs, live_nodes in *. rewrite bind_cons, fmap_app.
    split; [lia|]. split.
    + apply NoDup_app. split; [done|]. split; [|done].
      intros a Ha Ha'. apply Hgb in Ha. apply Hbnd in Ha'. lia.
    + intros a Ha. apply elem_of_app in Ha as [Ha|Ha].
      * apply Hgb in Ha. lia.
      * apply Hbnd in Ha. lia.
Qed.

(** With distinct addresses, a pointer to a live node reads that node. *)
Lemma node_at_live (tree : list RC_TREE_NODE) (n : RC_TREE_NODE) :
  NoDup (addrs tree) → n ∈ live_nodes tree →
  node_at (node_addr n) tree = Some n.
Proof.
  intros Hnd Hn. unfold node_at.
  destruct (list_find_elem_of (λ x, node_addr x = node_addr n)
              (live_nodes tree) n Hn eq_refl) as [[j x] Hfind].
  rewrite Hfind. simpl. f_equal.
  apply list_find_Some in Hfind as (Hj & Hx & _).
  apply list_elem_of_lookup in Hn as [k Hk].
  assert (j = k) as ->; [|congruence].
  eapply (NoDup_lookup (addrs tree)); [exact Hnd| |].
  - unfold addrs. rewrite list_lookup_fmap, Hj. simpl. by rewrite Hx.
  - unfold addrs. by rewrite list_lookup_fmap, Hk.
Qed.

Lemma child_in_subtree (g c : RC_TREE_NODE) :
  c ∈ m_Children g → c ∈ subtree g.
Proof.
  intros Hc. destruct g as [a t i q cs]. simpl in *.
  apply elem_of_cons. right. apply list_elem_of_bind. exists c.
  split; [|done]. destruct c. simpl. apply elem_of_cons. by left.
Qed.

Lemma group_is_live (tree : list RC_TREE_NODE) (g : RC_TREE_NODE) :
  g ∈ tree → g ∈ live_nodes tree.
Proof.
  intros Hg. apply list_elem_of_bind. exists g. split; [|done].
  destruct g. simpl. apply elem_of_cons. by left.
Qed.

Lemma child_is_live (tree : list RC_TREE_NODE) (g c : RC_TREE_NODE) :
  g ∈ tree → c ∈ m_Children g → c ∈ live_nodes tree.
Proof.
  intros Hg Hc. apply list_elem_of_bind. exists g.
  split; [by apply child_in_subtree | done].
Qed.

(** A rebuild over a provider that keeps its side succeeds, and the
    model it leaves is described by the provider's filtered range. *)
Lemma rebuildModel_spec (p0 : P) (sev : Z) (m : RC_TREE_MODEL) :
  let p := Provider.SetSeverities sev p0 in
  (∀ i, 0 ≤ i < Provider.GetCount_default p →
        is_Some (Provider.item_at p (Provider.GetItem i p))) →
  ∃ m', rebuildModel (Some p0) sev m = Some m' ∧
    m_rcItemsProvider m' = Some p ∧
    m_severities m' = sev ∧
    length (m_tree m') = Z.to_nat (Provider.GetCount_default p) ∧
    model_ok m' ∧
    NoDup (addrs (m_tree m')) ∧
    (∀ a, a ∈ addrs (m_tree m') → a ≠ nullptr) ∧
    ∀ k, (k < Z.to_nat (Provider.GetCount_default p))%nat →
      ∃ g it, m_tree m' !! k = Some g ∧
        Provider.item_at p (Provider.GetItem (Z.of_nat k) p) = Some it ∧
        m_Type g = MARKER ∧
        m_RcItem g = Provider.GetItem (Z.of_nat k) p ∧
        child_kinds g = expected_kinds it.
Proof.
  intros p Hlive.
  destruct (build_from_total p (Z.to_nat (Provider.GetCount_default p))
              0 (m_heapTop m)) as [[tree top] Hb].
  { intros j Hj. apply Hlive. lia. }
  assert (rebuildModel (Some p0) sev m
          = Some {| m_editFrame := m_editFrame m; m_view := m_view m;
                    m_severities := sev; m_rcItemsProvider := Some p;
                    m_tree := tree; m_heapTop := top;
                    m_notified := m_notified m |}) as Hre.
  { unfold rebuildModel. fold p. by rewrite Hb. }
  eexists. split; [exact Hre|]. simpl.
  destruct (build_from_items _ _ _ _ _ _ Hb) as [Hlen Hitems].
  destruct (build_from_addrs _ _ _ _ _ _ Hb) as (_ & Hnd & Hbnd).
  split; [done|]. split; [done|]. split; [done|]. split.
  { eapply rebuildModel_ok. exact Hre. }
  split; [done|]. split.
  { intros a Ha. apply Hbnd in Ha. unfold nullptr. lia. }
  intros k Hk. destruct (Hitems k Hk) as (g & it & Hg & Hit & Hrest).
  exists g, it. rewrite Z.add_0_l in Hit, Hrest. by split.
Qed.

(** C1 (amended): with a provider attached, SetSeverities(M) succeeds
    and leaves exactly as many top-level nodes as the provider's filtered
    range has items, which is GetCount() with the default argument.  The
    nodes are groups without a parent, and the items they wrap are the
    provider's items 0, 1, ... in index order, one node for each index.
    The number of nodes is GetCount(M) exactly for a provider whose
    GetCount(M) is that filtered count.  The provider is assumed to keep
    its side: after SetSeverities(M) the filtered count is a non-negative
    int, and every index below it yields an item. *)
Theorem SetSeverities_count_matches_provider
    (M : Z) (p0 : P) (m : RC_TREE_MODEL) :
  m_rcItemsProvider m = Some p0 →
  provider_ok (Provider.SetSeverities M p0) →
  ∃ m', SetSeverities M m = Some m' ∧
    m_rcItemsProvider m' = Some (Provider.SetSeverities M p0) ∧
    GetDRCItemCount m'
      = Provider.GetCount_default (Provider.SetSeverities M p0) ∧
    (GetDRCItemCount m' = Provider.GetCount M (Provider.SetSeverities M p0)
     ↔ Provider.GetCount M (Provider.SetSeverities M p0)
         = Provider.GetCount_default (Provider.SetSeverities M p0)) ∧
    m_RcItem <$> m_tree m'
      = (λ k : nat, Provider.GetItem (Z.of_nat k) (Provider.SetSeverities M p0))
          <$> seq 0 (Z.to_nat (Provider.GetCount_default
                                 (Provider.SetSeverities M p0))) ∧
    Forall (λ g, m_Type g = MARKER ∧ m_Parent g = nullptr) (m_tree m').
Proof.
  intros Hprov [Hrange Hlive].
  destruct (rebuildModel_spec p0 M m Hlive)
    as (m' & Hre & Hp' & _ & Hlen & Hok & _ & _ & Hitems).
  exists m'. unfold SetSeverities. rewrite Hprov.
  split; [exact Hre|]. split; [exact Hp'|].
  assert (GetDRCItemCount m'
          = Provider.GetCount_default (Provider.SetSeverities M p0)) as Hc.
  { unfold GetDRCItemCount. rewrite Hlen, Z2Nat.id by lia.
    apply to_int_id. unfold INT_MIN. lia. }
  split; [exact Hc|]. split; [rewrite Hc; split; congruence|]. split.
  - apply list_eq. intros k. rewrite !list_lookup_fmap.
    destruct (decide (k < Z.to_nat (Provider.GetCount_default
                                      (Provider.SetSeverities M p0)))%nat)
      as [Hk|Hk].
    + destruct (Hitems k Hk) as (g & it & Hg & _ & _ & Hitem & _).
      rewrite Hg, lookup_seq_lt by done. simpl. by rewrite Hitem.
    + rewrite lookup_ge_None_2 by lia.
      by rewrite lookup_seq_ge by lia.
  - eapply Forall_impl; [exact Hok|].
    intros g (Hty & Hpar & _). by split.
Qed.

Lemma tree_sublist_live (tree : list RC_TREE_NODE) :
  tree `sublist_of` live_nodes tree.
Proof.
  induction tree as [|g tree IH]; [reflexivity|].
  unfold live_nodes. rewrite bind_cons.
  destruct g as [a t i q cs]. simpl.
  apply sublist_skip, sublist_inserts_l, IH.
Qed.

(** Distinct node addresses give distinct handles for the top-level
    nodes. *)
Lemma top_handles_NoDup (tree : list RC_TREE_NODE) :
  NoDup (addrs tree) →
  NoDup ((λ n, ToItem (node_addr n)) <$> tree).
Proof.
  intros Hnd.
  assert (NoDup (node_addr <$> tree)) as Htop.
  { apply (sublist_NoDup _ (addrs tree)); [exact Hnd|].
    unfold addrs. apply fmap_sublist, tree_sublist_live. }
  rewrite (list_fmap_compose node_addr ToItem).
  apply NoDup_fmap_2_strong; [|exact Htop].
  intros a b _ _ Heq. by injection Heq.
Qed.

(** C3: after a rebuild, GetChildren on the sentinel root appends one
    handle for each item of the provider's filtered range and returns
    their number; the handles are distinct, and the k-th is the handle of
    the k-th top-level node, a group that wraps the provider's item k:
    index order, nothing re-sorted.  On the handle of that group
    GetChildren appends one handle for each leaf the item calls for
    (main entity, then auxiliary entity when the item has both), the j-th
    being the handle of a leaf of the j-th kind for the same item; on the
    handle of a leaf it appends nothing and returns 0. *)
Theorem GetChildren_follows_provider_order
    (M : Z) (p0 : P) (m : RC_TREE_MODEL)
    (aChildren : list wxDataViewItem) :
  m_rcItemsProvider m = Some p0 →
  (∀ i, 0 ≤ i < Provider.GetCount_default (Provider.SetSeverities M p0) →
        is_Some (Provider.item_at (Provider.SetSeverities M p0)
                   (Provider.GetItem i (Provider.SetSeverities M p0)))) →
  ∃ m' roots,
    SetSeverities M m = Some m' ∧
    GetChildren (ToItem nullptr) aChildren m'
      = Some (Z.of_nat (length roots), aChildren ++ roots) ∧
    length roots
      = Z.to_nat (Provider.GetCount_default (Provider.SetSeverities M p0)) ∧
    NoDup roots ∧
    ∀ k, (k < length roots)%nat →
      ∃ g it leaves,
        roots !! k = Some (ToItem (node_addr g)) ∧
        m_tree m' !! k = Some g ∧
        m_Type g = MARKER ∧
        m_RcItem g
          = Provider.GetItem (Z.of_nat k) (Provider.SetSeverities M p0) ∧
        Provider.item_at (Provider.SetSeverities M p0)
          (Provider.GetItem (Z.of_nat k) (Provider.SetSeverities M p0))
          = Some it ∧
        GetChildren (ToItem (node_addr g)) aChildren m'
          = Some (Z.of_nat (length leaves), aChildren ++ leaves) ∧
        length leaves = length (expected_kinds it) ∧
        ∀ j kind, expected_kinds it !! j = Some kind →
          ∃ c, leaves !! j = Some (ToItem (node_addr c)) ∧
               m_Children g !! j = Some c ∧
               m_Type c = kind ∧
               m_RcItem c = m_RcItem g ∧
               m_Parent c = node_addr g ∧
               GetChildren (ToItem (node_addr c)) aChildren m'
                 = Some (0, aChildren).
Proof.
  intros Hprov Hlive.
  destruct (rebuildModel_spec p0 M m Hlive)
    as (m' & Hre & _ & _ & Hlen & Hok & Hnd & Hnn & Hitems).
  exists m', ((λ n, ToItem (node_addr n)) <$> m_tree m').
  unfold SetSeverities. rewrite Hprov.
  split; [exact Hre|]. split.
  { unfold GetChildren, handles. rewrite decide_True by done.
    by rewrite !length_fmap. }
  rewrite length_fmap. split; [exact Hlen|].
  split; [by apply top_handles_NoDup|].
  intros k Hk. rewrite Hlen in Hk.
  destruct (Hitems k Hk) as (g & it & Hg & Hit & Hty & Hitem & Hkinds).
  exists g, it, ((λ n, ToItem (node_addr n)) <$> m_Children g).
  split; [by rewrite list_lookup_fmap, Hg|].
  split; [done|]. split; [done|]. split; [done|]. split; [done|].
  pose proof (list_elem_of_lookup_2 _ _ _ Hg) as Hgin.
  pose proof (proj1 (Forall_forall _ _) Hok g Hgin)
    as (_ & _ & _ & Hleaves & _).
  split; [|split].
  - unfold GetChildren, handles. cbn [ToNode ToItem GetID].
    rewrite decide_False.
    + rewrite (node_at_live _ g Hnd (group_is_live _ _ Hgin)).
      by rewrite !length_fmap.
    + apply Hnn. apply list_elem_of_fmap_2. by apply group_is_live.
  - rewrite length_fmap, <- Hkinds. unfold child_kinds.
    by rewrite length_fmap.
  - intros j kind Hj. rewrite <- Hkinds in Hj. unfold child_kinds in Hj.
    rewrite list_lookup_fmap in Hj.
    destruct (m_Children g !! j) as [c|] eqn:Hc; [|done].
    simpl in Hj. injection Hj as Hkind.
    pose proof (list_elem_of_lookup_2 _ _ _ Hc) as Hcin.
    destruct (proj1 (Forall_forall _ _) Hleaves c Hcin)
      as (Hnone & Hpar & Hsame).
    exists c. rewrite list_lookup_fmap, Hc.
    split; [done|]. split; [done|]. split; [done|]. split; [done|].
    split; [done|].
    unfold GetChildren, handles. cbn [ToNode ToItem GetID].
    pose proof (child_is_live _ _ _ Hgin Hcin) as Hlivec.
    rewrite decide_False.
    + rewrite (node_at_live _ c Hnd Hlivec), Hnone.
      simpl. by rewrite app_nil_r.
    + apply Hnn. by apply list_elem_of_fmap_2.
Qed.

(** *** Deleting *)

Lemma find_index_from_Some (p : P) (item : ptr) (n : nat) :
  ∀ (i j : Z), find_index_from p item i n = Some j →
    i ≤ j < i + Z.of_nat n ∧ Provider.GetItem j p = item ∧
    ∀ j', i ≤ j' < j → Provider.GetItem j' p ≠ item.
Proof.
  induction n as [|n IH]; intros i j; simpl; [done|].
  case_decide as Hi.
  - intros [= <-]. split; [lia|]. split; [done|]. intros j' Hj'. lia.
  - intros Hfind. destruct (IH _ _ Hfind) as (Hr & Hj & Hfirst).
    split; [lia|]. split; [done|]. intros j' Hj'.
    destruct (decide (j' = i)) as [->|Hne]; [done|].
    apply Hfirst. lia.
Qed.

Lemma live_nodes_delete (tree : list RC_TREE_NODE) (k : nat)
    (g : RC_TREE_NODE) :
  tree !! k = Some g → NoDup (addrs tree) →
  ∀ n, n ∈ subtree g → n ∉ live_nodes (delete k tree).
Proof.
  intros Hk Hnd n Hn Hin.
  apply NoDup_fmap_1 in Hnd.
  rewrite <- (take_drop_middle tree k g Hk) in Hnd.
  unfold live_nodes in *. rewrite delete_take_drop in Hin.
  rewrite bind_app, bind_cons in Hnd. rewrite bind_app in Hin.
  apply NoDup_app in Hnd as (_ & Hdisj1 & Hnd).
  apply NoDup_app in Hnd as (_ & Hdisj2 & _).
  apply elem_of_app in Hin as [Hin|Hin].
  - by apply (Hdisj1 n Hin), elem_of_app; left.
  - by apply (Hdisj2 n Hn).
Qed.

(** The provider's side of a delete: deleting the item at one index
    leaves the item behind every other pointer as it was. *)
Definition DeleteItem_leaves_others : Prop :=
  ∀ (i : Z) (d : bool) (p : P) (a : ptr),
    a ≠ Provider.GetItem i p →
    Provider.item_at (Provider.DeleteItem i d p) a = Provider.item_at p a.

Lemma owns_in_subtree (a : ptr) (g : RC_TREE_NODE) :
  owns a g → a ∈ node_addr <$> subtree g.
Proof.
  intros [<-|Hc].
  - destruct g. simpl. apply elem_of_cons. by left.
  - apply list_elem_of_fmap in Hc as (c & -> & Hc).
    by apply list_elem_of_fmap_2, child_in_subtree.
Qed.

(** With distinct node addresses a node belongs to one group only, so
    the search for the owning group finds that group. *)
Lemma owning_group_found (tree : list RC_TREE_NODE) (k : nat)
    (g : RC_TREE_NODE) (a : ptr) :
  NoDup (addrs tree) → tree !! k = Some g → owns a g →
  owning_group a tree = Some (k, g).
Proof.
  intros Hnd Hk Hown. unfold owning_group. apply list_find_Some.
  split; [done|]. split; [done|]. intros j y Hj Hjk Hy.
  apply owns_in_subtree in Hown, Hy.
  unfold addrs, live_nodes in Hnd.
  rewrite <- (take_drop_middle tree k g Hk) in Hnd.
  rewrite bind_app, bind_cons, !fmap_app in Hnd.
  apply NoDup_app in Hnd as (_ & Hdisj & _). apply (Hdisj a).
  - apply list_elem_of_fmap in Hy as (n & -> & Hn).
    apply list_elem_of_fmap_2, list_elem_of_bind. exists y.
    split; [done|]. apply list_elem_of_lookup. exists j.
    by rewrite lookup_take_lt.
  - apply elem_of_app. by left.
Qed.

Lemma find_index_from_first (p : P) (item : ptr) (n : nat) :
  ∀ (i j : Z), i ≤ j < i + Z.of_nat n →
    Provider.GetItem j p = item →
    (∀ j', i ≤ j' < j → Provider.GetItem j' p ≠ item) →
    find_index_from p item i n = Some j.
Proof.
  induction n as [|n IH]; intros i j Hr Hj Hfirst; simpl; [lia|].
  case_decide as Hi.
  - destruct (decide (i = j)) as [->|Hne]; [done|].
    exfalso. apply (Hfirst i); [lia | done].
  - apply IH; [|done|].
    + destruct (decide (i = j)) as [->|Hne]; [done | lia].
    + intros j' Hj'. apply Hfirst. lia.
Qed.

Lemma find_index_from_None (p : P) (item : ptr) (n : nat) :
  ∀ i : Z, (∀ j, i ≤ j < i + Z.of_nat n → Provider.GetItem j p ≠ item) →
    find_index_from p item i n = None.
Proof.
  induction n as [|n IH]; intros i Hno; simpl; [done|].
  rewrite decide_False by (apply Hno; lia).
  apply IH. intros j Hj. apply Hno. lia.
Qed.

(** Node addresses stay distinct through every call. *)
Lemma rebuildModel_addrs (prov : option P) (sev : Z)
    (m m' : RC_TREE_MODEL) :
  rebuildModel prov sev m = Some m' → NoDup (addrs (m_tree m')).
Proof.
  unfold rebuildModel. destruct prov as [p0|].
  - destruct (build_from _ _ _ _) as [[tree top]|] eqn:Hb; [|done].
    intros [= <-]. simpl. by eapply build_from_addrs.
  - intros [= <-]. simpl. apply NoDup_nil_2.
Qed.

Lemma DeleteCurrentItem_addrs (d : bool) (cur : wxDataViewItem)
    (m : RC_TREE_MODEL) :
  NoDup (addrs (m_tree m)) →
  NoDup (addrs (m_tree (DeleteCurrentItem d cur m))).
Proof.
  intros Hnd. unfold DeleteCurrentItem.
  destruct (m_rcItemsProvider m) as [p|]; [|done].
  destruct (selected_index cur p (m_tree m)) as [[[k g] i]|]; [|done].
  simpl. apply (sublist_NoDup _ (addrs (m_tree m))); [exact Hnd|].
  unfold addrs, live_nodes. apply fmap_sublist, bind_sublist, sublist_delete.
Qed.

Lemma call_addrs (c : model_call) (m m' : RC_TREE_MODEL) :
  NoDup (addrs (m_tree m)) → call c m = Some m' →
  NoDup (addrs (m_tree m')).
Proof.
  intros Hnd. destruct c; simpl.
  - apply rebuildModel_addrs.
  - apply rebuildModel_addrs.
  - intros [= <-]. exact Hnd.
  - intros [= <-]. by apply DeleteCurrentItem_addrs.
  - intros [= <-]. apply NoDup_nil_2.
  - intros [= <-]. exact Hnd.
Qed.

Lemma calls_addrs (cs : list model_call) :
  ∀ m m', NoDup (addrs (m_tree m)) → calls cs m = Some m' →
          NoDup (addrs (m_tree m')).
Proof.
  induction cs as [|c cs IH]; intros m m' Hnd; simpl.
  - by intros [= <-].
  - destruct (call c m) as [m1|] eqn:Hc; [|done].
    apply IH. by eapply call_addrs.
Qed.

(** C4: in any state the model reaches from an empty tree, take the
    top-level node [g] at position [k] and select it or one of its
    leaves, and let [i] be the live provider index the selection maps to:
    the first index of the provider's filtered range whose item is the
    item [g] wraps.  A shallow DeleteCurrentItem then hands the provider
    the one call DeleteItem(i, false); takes [g] out of the tree and
    nothing else, so that no node of its subtree is alive afterwards and
    every other group still is; tells the view that [g] was deleted; and
    leaves every other member of the model alone.  Every other item of
    the provider reads as before, a provider leaving the items at other
    indices alone.  In any state whatever and for either flag, a
    selection that is no live node, or whose group wraps an item found at
    no index of the provider's filtered range, leaves model and provider
    exactly as they were. *)
Theorem DeleteCurrentItem_shallow :
  (∀ (cs : list model_call) (m0 m : RC_TREE_MODEL) (p : P)
     (k : nat) (g : RC_TREE_NODE) (sel : wxDataViewItem) (i : Z),
     m_tree m0 = [] → calls cs m0 = Some m →
     m_rcItemsProvider m = Some p →
     m_tree m !! k = Some g →
     sel = ToItem (node_addr g)
       ∨ (∃ c, c ∈ m_Children g ∧ sel = ToItem (node_addr c)) →
     0 ≤ i < Provider.GetCount_default p →
     Provider.GetItem i p = m_RcItem g →
     (∀ j, 0 ≤ j < i → Provider.GetItem j p ≠ m_RcItem g) →
     DeleteCurrentItem false sel m
       = {| m_editFrame := m_editFrame m; m_view := m_view m;
            m_severities := m_severities m;
            m_rcItemsProvider := Some (Provider.DeleteItem i false p);
            m_tree := take k (m_tree m) ++ drop (S k) (m_tree m);
            m_heapTop := m_heapTop m;
            m_notified := m_notified m
              ++ [ItemDeleted (ToItem nullptr) (ToItem (node_addr g))] |} ∧
     (∀ n, n ∈ subtree g →
           n ∉ live_nodes (m_tree (DeleteCurrentItem false sel m))) ∧
     (∀ (j : nat) (g' : RC_TREE_NODE),
        j ≠ k → m_tree m !! j = Some g' →
        g' ∈ m_tree (DeleteCurrentItem false sel m)) ∧
     (DeleteItem_leaves_others →
      ∀ a, a ≠ m_RcItem g →
           Provider.item_at (Provider.DeleteItem i false p) a
             = Provider.item_at p a)) ∧
  (∀ (m : RC_TREE_MODEL) (aDeep : bool) (sel : wxDataViewItem),
     (∀ p g i,
        m_rcItemsProvider m = Some p → g ∈ m_tree m →
        node_addr g = ToNode sel
          ∨ (∃ c, c ∈ m_Children g ∧ node_addr c = ToNode sel) →
        0 ≤ i < Provider.GetCount_default p →
        Provider.GetItem i p ≠ m_RcItem g) →
     DeleteCurrentItem aDeep sel m = m).
Proof.
  split.
  - intros cs m0 m p k g sel i Hempty Hrun Hprov Hg Hsel Hi Hitem Hfirst.
    assert (NoDup (addrs (m_tree m))) as Hnd.
    { eapply calls_addrs; [|exact Hrun]. rewrite Hempty. apply NoDup_nil_2. }
    assert (owns (ToNode sel) g) as Hown.
    { destruct Hsel as [->|(c & Hc & ->)]; [by left|].
      right. cbn [ToNode ToItem GetID]. by apply list_elem_of_fmap_2. }
    assert (selected_index sel p (m_tree m) = Some (k, g, i)) as Hselidx.
    { unfold selected_index.
      rewrite (owning_group_found _ k g _ Hnd Hg Hown).
      unfold provider_index_of.
      by rewrite (find_index_from_first _ _ _ 0 i); [|lia| |]. }
    assert (DeleteCurrentItem false sel m
            = {| m_editFrame := m_editFrame m; m_view := m_view m;
                 m_severities := m_severities m;
                 m_rcItemsProvider := Some (Provider.DeleteItem i false p);
                 m_tree := take k (m_tree m) ++ drop (S k) (m_tree m);
                 m_heapTop := m_heapTop m;
                 m_notified := m_notified m
                   ++ [ItemDeleted (ToItem nullptr) (ToItem (node_addr g))] |})
      as Hdel.
    { unfold DeleteCurrentItem. rewrite Hprov, Hselidx.
      by rewrite delete_take_drop. }
    split; [exact Hdel|]. rewrite Hdel. cbn [m_tree].
    split; [|split].
    + rewrite <- delete_take_drop. by apply live_nodes_delete.
    + intros j g' Hjk Hg'.
      rewrite <- delete_take_drop. apply list_elem_of_lookup.
      destruct (decide (j < k)%nat) as [Hlt|Hge].
      * exists j. by rewrite list_lookup_delete_lt.
      * exists (pred j). rewrite list_lookup_delete_ge by lia.
        by replace (S (pred j)) with j by lia.
    + intros Hothers a Ha. apply Hothers. by rewrite Hitem.
  - intros m aDeep sel Hno. unfold DeleteCurrentItem.
    destruct (m_rcItemsProvider m) as [p|] eqn:Hp; [|done].
    unfold selected_index.
    destruct (owning_group (ToNode sel) (m_tree m)) as [[k g]|] eqn:Hown;
      [|done].
    apply list_find_Some in Hown as (Hk & Hg & _).
    unfold provider_index_of.
    rewrite (find_index_from_None p (m_RcItem g)
               (Z.to_nat (Provider.GetCount_default p)) 0); [done|].
    intros i Hi. apply (Hno p g i); [done| | |lia].
    + by eapply list_elem_of_lookup_2.
    + destruct Hg as [Hg|Hg]; [by left|]. right.
      apply list_elem_of_fmap in Hg as (c & Hc & Hin). by exists c.
Qed.






End Model.

(** *** A worked example *)

(** Two severity bits, and three items whose severities are error,
    warning, error; identifiers are natural numbers and nil is 0. *)
Definition WARNING_BIT : Z := 2.
Definition ERROR_BIT : Z := 4.

Definition example_item (code : Z) (msg : string) (main aux : N)
    : RC_ITEM N :=
  SetItems main aux (SetErrorMessage msg (SetErrorCode code (RC_ITEM_new 0%N))).

Definition example_provider : ListProvider.LIST_PROVIDER N :=
  {| ListProvider.lp_heap :=
       {[ 100%N := (example_item 42 "short circuit" 11%N 12%N, ERROR_BIT);
          101%N := (example_item 7 "unconnected" 21%N 0%N, WARNING_BIT);
          102%N := (example_item 9 "clearance" 31%N 32%N, ERROR_BIT) ]};
     ListProvider.lp_list := [100%N; 101%N; 102%N];
     ListProvider.lp_severities := 0 |}.

Definition example_model : RC_TREE_MODEL :=
  {| m_editFrame := 1%N; m_view := 2%N; m_severities := 0;
     m_rcItemsProvider := Some example_provider;
     m_tree := []; m_heapTop := 0%N; m_notified := [] |}.

(** The model after the filter is set to errors only. *)
Definition example_rebuilt : RC_TREE_MODEL :=
  default example_model (SetSeverities 0%N ERROR_BIT example_model).

Definition example_calls : list (model_call (wxVariant := unit)) :=
  [ CallSetSeverities ERROR_BIT;
    CallValueChanged 1%N;
    CallSetValue tt (ToItem 1%N) 0;
    CallDeleteCurrentItem false (ToItem 5%N);
    CallSetProvider example_provider;
    CallDeleteCurrentItem true (ToItem 7%N) ].

Definition example_final : RC_TREE_MODEL :=
  default example_model (calls 0%N example_calls example_model).

Definition example_second_group : RC_TREE_NODE :=
  default (RC_TREE_NODE_new nullptr nullptr nullptr MARKER)
          (m_tree example_rebuilt !! 1%nat).

(** The groups are those of items 0 and 2, in that order, each with a main
    and an auxiliary leaf; node addresses are 1..6. *)
Example example_rebuilt_tree :
  SetSeverities 0%N ERROR_BIT example_model = Some example_rebuilt ∧
  m_RcItem <$> m_tree example_rebuilt = [100%N; 102%N] ∧
  child_kinds <$> m_tree example_rebuilt
    = [[MAIN_ITEM; AUX_ITEM]; [MAIN_ITEM; AUX_ITEM]] ∧
  GetChildren (ToItem nullptr) [] example_rebuilt
    = Some (2, [ToItem 1%N; ToItem 4%N]) ∧
  GetChildren (ToItem 4%N) [] example_rebuilt
    = Some (2, [ToItem 5%N; ToItem 6%N]) ∧
  GetChildren (ToItem 5%N) [] example_rebuilt = Some (0, []).
Proof. repeat split; vm_compute; reflexivity. Qed.

(** With the filter set to warnings only, the one group has a single
    leaf, for the main entity. *)
Example example_warning_tree :
  (λ m, child_kinds <$> m_tree m) <$>
    SetSeverities 0%N WARNING_BIT example_model = Some [[MAIN_ITEM]].
Proof. vm_compute. reflexivity. Qed.

(** Deleting through the leaf at address 5 removes the second group and
    the provider's item 102, and nothing else. *)
Example example_delete :
  handles (m_tree (DeleteCurrentItem false (ToItem 5%N) example_rebuilt))
    = [ToItem 1%N] ∧
  ListProvider.lp_list <$>
    m_rcItemsProvider (DeleteCurrentItem false (ToItem 5%N) example_rebuilt)
    = Some [100%N; 101%N] ∧
  (λ p, Provider.item_at p <$> [100%N; 101%N; 102%N]) <$>
    m_rcItemsProvider (DeleteCurrentItem false (ToItem 5%N) example_rebuilt)
    = Some [Some (example_item 42 "short circuit" 11%N 12%N);
            Some (example_item 7 "unconnected" 21%N 0%N); None].
Proof. repeat split; vm_compute; reflexivity. Qed.

(** A handle that is not a live node: the delete changes nothing. *)
Example example_delete_stale :
  DeleteCurrentItem false (ToItem 77%N) example_rebuilt = example_rebuilt.
Proof. vm_compute. reflexivity. Qed.

Lemma SetSeverities_count_matches_provider_witness :
  ∃ m', SetSeverities 0%N ERROR_BIT example_model = Some m' ∧
        GetDRCItemCount m' = 2.
Proof.
  destruct (SetSeverities_count_matches_provider 0%N ERROR_BIT
              example_provider example_model)
    as (m' & Hre & _ & Hcount & _).
  - reflexivity.
  - split.
    + vm_compute. split; discriminate.
    + intros i Hi. apply ListProvider.lp_items_live. exact Hi.
  - exists m'. split; [exact Hre|]. rewrite Hcount. vm_compute. reflexivity.
Defined.

(** The same three items in a provider that counts one severity, and a
    model over it. *)
Definition example_severity_provider : SeverityProvider.SEVERITY_PROVIDER N :=
  {| SeverityProvider.sp_items := example_provider |}.

Definition example_severity_model : RC_TREE_MODEL :=
  {| m_editFrame := 1%N; m_view := 2%N; m_severities := 0;
     m_rcItemsProvider := Some example_severity_provider;
     m_tree := []; m_heapTop := 0%N; m_notified := [] |}.

(** With one severity the two counts agree; with the mask of warnings and
    errors the tree has three groups while GetCount of that mask is 0,
    no item having both severities. *)
Example example_severity_counts :
  (GetDRCItemCount <$> SetSeverities 0%N ERROR_BIT example_severity_model)
    = Some 2 ∧
  Provider.GetCount ERROR_BIT
    (Provider.SetSeverities ERROR_BIT example_severity_provider) = 2 ∧
  (GetDRCItemCount <$>
     SetSeverities 0%N (Z.lor WARNING_BIT ERROR_BIT) example_severity_model)
    = Some 3 ∧
  Provider.GetCount_default
    (Provider.SetSeverities (Z.lor WARNING_BIT ERROR_BIT)
       example_severity_provider) = 3 ∧
  Provider.GetCount (Z.lor WARNING_BIT ERROR_BIT)
    (Provider.SetSeverities (Z.lor WARNING_BIT ERROR_BIT)
       example_severity_provider) = 0.
Proof. repeat split; vm_compute; reflexivity. Qed.

(** C1 as stated fails: for the provider that counts one severity and the
    mask of warnings and errors, the provider keeps its side, and after
    SetSeverities the tree has three top-level nodes while GetCount of
    the mask is 0. *)
Lemma SetSeverities_count_differs_from_GetCount_of_mask :
  ¬ (∀ (M : Z) (p0 : SeverityProvider.SEVERITY_PROVIDER N)
       (m : RC_TREE_MODEL),
       m_rcItemsProvider m = Some p0 →
       provider_ok (Provider.SetSeverities M p0) →
       ∃ m', SetSeverities 0%N M m = Some m' ∧
             GetDRCItemCount m'
               = Provider.GetCount M (Provider.SetSeverities M p0)).
Proof.
  intros H.
  destruct (H (Z.lor WARNING_BIT ERROR_BIT) example_severity_provider
              example_severity_model) as (m' & Hre & Hcount).
  - reflexivity.
  - split.
    + vm_compute. split; discriminate.
    + intros i Hi. apply SeverityProvider.sp_items_live. exact Hi.
  - vm_compute in Hre. injection Hre as <-. vm_compute in Hcount.
    discriminate Hcount.
Qed.

Example example_final_tree :
  handles (m_tree example_final) = [ToItem 10%N] ∧
  child_kinds <$> m_tree example_final = [[MAIN_ITEM; AUX_ITEM]].
Proof. split; vm_compute; reflexivity. Qed.

Lemma tree_shape_preserved_witness : shape_invariant 0%N example_final.
Proof.
  apply (tree_shape_preserved 0%N example_calls example_model).
  - intros i d p a it. apply ListProvider.lp_DeleteItem_untouched.
  - reflexivity.
  - vm_compute. reflexivity.
Defined.

Lemma GetChildren_follows_provider_order_witness :
  ∃ m', SetSeverities 0%N ERROR_BIT example_model = Some m' ∧
        GetChildren (ToItem nullptr) [] m'
          = Some (2, [ToItem 1%N; ToItem 4%N]).
Proof.
  destruct (GetChildren_follows_provider_order 0%N ERROR_BIT
              example_provider example_model [])
    as (m' & roots & Hre & Hroot & _).
  - reflexivity.
  - intros i Hi. apply ListProvider.lp_items_live. exact Hi.
  - exists m'. split; [exact Hre|].
    vm_compute in Hre. injection Hre as <-. vm_compute. reflexivity.
Defined.

Lemma DeleteCurrentItem_shallow_witness :
  m_tree (DeleteCurrentItem false (ToItem 5%N) example_rebuilt)
    = take 1 (m_tree example_rebuilt) ++ drop 2 (m_tree example_rebuilt) ∧
  m_rcItemsProvider (DeleteCurrentItem false (ToItem 5%N) example_rebuilt)
    = Some (Provider.DeleteItem 1 false
              (ListProvider.lp_SetSeverities ERROR_BIT example_provider)) ∧
  DeleteCurrentItem false (ToItem 77%N) example_rebuilt = example_rebuilt.
Proof.
  destruct (DeleteCurrentItem_shallow 0%N (wxVariant := unit)
              (P := ListProvider.LIST_PROVIDER N)) as [Hdel Hnoop].
  destruct (Hdel [CallSetSeverities ERROR_BIT] example_model example_rebuilt
              (ListProvider.lp_SetSeverities ERROR_BIT example_provider)
              1%nat example_second_group (ToItem 5%N) 1) as (Heq & _).
  - reflexivity.
  - vm_compute. reflexivity.
  - vm_compute. reflexivity.
  - reflexivity.
  - right. exists (RC_TREE_NODE_new 5%N 4%N 102%N MAIN_ITEM).
    split; [|reflexivity]. vm_compute. apply elem_of_cons. by left.
  - vm_compute. split; [discriminate | reflexivity].
  - vm_compute. reflexivity.
  - intros j Hj. assert (j = 0) as -> by lia. vm_compute. discriminate.
  - split; [by rewrite Heq|]. split; [by rewrite Heq|].
    apply Hnoop. intros p1 g i _ Hg Hsel _ _.
    vm_compute in Hg.
    apply elem_of_cons in Hg as [->|Hg];
      [|apply elem_of_cons in Hg as [->|Hg];
        [|by apply elem_of_nil in Hg]].
    all: destruct Hsel as [Hsel|(c & Hc & Hsel)];
      [discriminate Hsel|].
    all: vm_compute in Hc.
    all: apply elem_of_cons in Hc as [->|Hc];
      [discriminate Hsel|].
    all: apply elem_of_cons in Hc as [->|Hc];
      [discriminate Hsel | by apply elem_of_nil in Hc].
Defined.


End RcTreeModel.


(** ** More on RC_ITEM and RC_TREE_NODE (common/rc_item.h) *)

Module RcItemCalls.
Import RcItem.
Section WithKIID.
Context {KIID : Type} `{!EqDecision KIID} (niluuid : KIID).

Definition is_copy (op : rc_op KIID) : Prop :=
  match op with OpCopy => True | _ => False end.

Global Instance is_copy_dec op : Decision (is_copy op).
Proof. destruct op; simpl; apply _. Defined.

(** The argument of the last call in [ops] that writes the error code,
    starting from [c]. *)
Fixpoint last_code (c : Z) (ops : list (rc_op KIID)) : Z :=
  match ops with
  | [] => c
  | OpSetErrorCode c' :: ops' => last_code c' ops'
  | _ :: ops' => last_code c ops'
  end.

(** Likewise for the message and the parent marker. *)
Fixpoint last_message (s : string) (ops : list (rc_op KIID)) : string :=
  match ops with
  | [] => s
  | OpSetErrorMessage s' :: ops' => last_message s' ops'
  | _ :: ops' => last_message s ops'
  end.

Fixpoint last_parent (p : ptr) (ops : list (rc_op KIID)) : ptr :=
  match ops with
  | [] => p
  | OpSetParent p' :: ops' => last_parent p' ops'
  | _ :: ops' => last_parent p ops'
  end.

(** The main identifier is written by both SetItems overloads. *)
Fixpoint last_main (k : KIID) (ops : list (rc_op KIID)) : KIID :=
  match ops with
  | [] => k
  | OpSetItems a _ :: ops' => last_main a ops'
  | OpSetItemsPtr a _ :: ops' => last_main (m_Uuid a) ops'
  | _ :: ops' => last_main k ops'
  end.

(** The auxiliary identifier is written by the KIID overload always and by
    the pointer overload only when its second argument is not null. *)
Fixpoint last_aux (k : KIID) (ops : list (rc_op KIID)) : KIID :=
  match ops with
  | [] => k
  | OpSetItems _ b :: ops' => last_aux b ops'
  | OpSetItemsPtr _ (Some b) :: ops' => last_aux (m_Uuid b) ops'
  | _ :: ops' => last_aux k ops'
  end.

Lemma run_ops_cons (op : rc_op KIID) (ops : list (rc_op KIID))
    (it : RC_ITEM KIID) :
  run_ops (op :: ops) it = run_ops ops (apply_op op it).
Proof. reflexivity. Qed.

(** X1.  Copy construction is invisible: dropping every copy from a sequence of
    calls gives the same item. *)
Theorem copies_are_transparent (ops : list (rc_op KIID)) (it : RC_ITEM KIID) :
  run_ops (filter (λ op, ¬ is_copy op) ops) it = run_ops ops it.
Proof.
  revert it. induction ops as [|op ops IH]; intros it; [reflexivity|].
  rewrite run_ops_cons. destruct (decide (is_copy op)) as [Hc|Hc].
  - rewrite filter_cons_False by tauto. rewrite IH.
    destruct op; try contradiction. simpl. by rewrite RC_ITEM_copy_same.
  - rewrite filter_cons_True by exact Hc. rewrite run_ops_cons. apply IH.
Qed.

(** X2.  Each member of an item is decided by the last call that writes it,
    whatever other calls are made in between. *)
Theorem members_follow_last_writer
    (ops : list (rc_op KIID)) (it : RC_ITEM KIID) :
  GetErrorCode (run_ops ops it) = last_code (GetErrorCode it) ops ∧
  m_errorMessage (run_ops ops it) = last_message (m_errorMessage it) ops ∧
  GetParent (run_ops ops it) = last_parent (GetParent it) ops ∧
  GetMainItemID (run_ops ops it) = last_main (GetMainItemID it) ops ∧
  GetAuxItemID (run_ops ops it) = last_aux (GetAuxItemID it) ops.
Proof.
  revert it. induction ops as [|op ops IH]; intros it; [done|].
  rewrite run_ops_cons.
  destruct (IH (apply_op op it)) as (-> & -> & -> & -> & ->).
  destruct op as [| |a [b|]| | |]; done.
Qed.

(** X3.  Re-targeting an item with the pointer overload and no second entity
    keeps the auxiliary identifier of the earlier call, while the KIID
    overload resets it.  So an item set to (a, b) and then pointed at the
    entity b alone ends with equal main and auxiliary identifiers. *)
Theorem SetItems_ptr_keeps_stale_aux
    (a b : KIID) (bItem : EDA_ITEM KIID) (it : RC_ITEM KIID) :
  m_Uuid bItem = b →
  GetMainItemID (SetItems_ptr bItem None (SetItems a b it)) = b ∧
  GetAuxItemID (SetItems_ptr bItem None (SetItems a b it)) = b ∧
  GetMainItemID (SetItems b niluuid (SetItems a b it)) = b ∧
  GetAuxItemID (SetItems b niluuid (SetItems a b it)) = niluuid.
Proof. intros <-. repeat split. Qed.

End WithKIID.

Lemma SetItems_ptr_keeps_stale_aux_witness :
  GetAuxItemID (SetItems_ptr {| m_Uuid := 12%N |} None
                  (SetItems 11%N 12%N (RC_ITEM_new 0%N)))
    = GetMainItemID (SetItems_ptr {| m_Uuid := 12%N |} None
                  (SetItems 11%N 12%N (RC_ITEM_new 0%N))).
Proof.
  destruct (SetItems_ptr_keeps_stale_aux 0%N 11%N 12%N {| m_Uuid := 12%N |}
              (RC_ITEM_new 0%N) eq_refl) as (Hmain & Haux & _).
  rewrite Hmain, Haux. reflexivity.
Defined.

End RcItemCalls.

Module RcTreeNodeLifetime.
Import RcTreeModel.

(** [delete n]: the destructor [~RC_TREE_NODE()] deletes every child in
    order, then the storage of [n] itself is released.  The result lists
    the addresses released, first released first. *)
Fixpoint delete_node (n : RC_TREE_NODE) : list ptr :=
  (m_Children n ≫= delete_node) ++ [node_addr n].

(** Induction on nodes with the hypothesis for all children. *)
Lemma RC_TREE_NODE_rect_children (Q : RC_TREE_NODE → Prop) :
  (∀ n, Forall Q (m_Children n) → Q n) → ∀ n, Q n.
Proof.
  intros Hstep. fix IH 1. intros [a t i p cs]. apply Hstep. simpl.
  induction cs as [|c cs IHcs]; constructor; [apply IH | exact IHcs].
Qed.

Lemma delete_nodes_perm (cs : list RC_TREE_NODE) :
  Forall (λ c, delete_node c ≡ₚ node_addr <$> subtree c) cs →
  cs ≫= delete_node ≡ₚ node_addr <$> (cs ≫= subtree).
Proof.
  induction 1 as [|c cs Hc _ IH]; [reflexivity|].
  rewrite !bind_cons, fmap_app. by rewrite Hc, IH.
Qed.

(** X4.  Deleting a node releases the node and every descendant, and nothing
    else: the released addresses are those of the subtree, each as often
    as it occurs there; the node's own storage goes last, after all of its
    children's; and when the addresses in the subtree are distinct no
    address is released twice. *)
Theorem delete_node_releases_subtree (n : RC_TREE_NODE) :
  delete_node n ≡ₚ node_addr <$> subtree n ∧
  length (delete_node n) = length (subtree n) ∧
  last (delete_node n) = Some (node_addr n) ∧
  (∀ c, c ∈ m_Children n → delete_node c `sublist_of` delete_node n) ∧
  (NoDup (node_addr <$> subtree n) → NoDup (delete_node n)).
Proof.
  assert (∀ m, delete_node m ≡ₚ node_addr <$> subtree m) as Hperm.
  { apply (RC_TREE_NODE_rect_children
             (λ m, delete_node m ≡ₚ node_addr <$> subtree m)).
    intros [a t i p cs] Hcs. simpl in *.
    rewrite (delete_nodes_perm cs Hcs).
    by rewrite <- Permutation_cons_append. }
  split; [apply Hperm|]. split.
  { rewrite (Permutation_length (Hperm n)). apply length_fmap. }
  split.
  { destruct n as [a t i p cs]. simpl. apply last_snoc. }
  split.
  { intros c Hc. destruct n as [a t i p cs]. simpl in *.
    apply sublist_inserts_r.
    apply list_elem_of_lookup in Hc as [k Hk].
    rewrite <- (take_drop_middle cs k c Hk), bind_app, bind_cons.
    apply sublist_inserts_l, sublist_inserts_r. reflexivity. }
  intros Hnd. by rewrite (Hperm n).
Qed.

Lemma delete_node_releases_subtree_witness :
  NoDup (delete_node RcTreeModel.example_second_group).
Proof.
  apply (delete_node_releases_subtree RcTreeModel.example_second_group).
  apply (bool_decide_unpack (NoDup _)). vm_compute. exact I.
Defined.

Example delete_node_example :
  delete_node RcTreeModel.example_second_group = [5%N; 6%N; 4%N].
Proof. vm_compute. reflexivity. Qed.

End RcTreeNodeLifetime.

(** ** More on REPORTER (include/reporter.h) *)

Module ReporterStream.
Import Reporter.
Section WithSeverity.
Context {SEVERITY : Type} (RPT_SEVERITY_UNDEFINED : SEVERITY).

(** [operator <<( const wxString& aText ) { return Report( aText ); }] and
    [operator <<( const wxChar* aText )], which first builds the wxString. *)
Definition shl_text {R} (cls : REPORTER R) (aText : string) (this : R) : R :=
  Report cls aText (arg_or_default RPT_SEVERITY_UNDEFINED None) this.

(** [operator <<( wxChar aChar ) { return Report( wxString( aChar ) ); }] *)
Definition shl_char {R} (cls : REPORTER R) (aChar : Ascii.ascii) (this : R) : R :=
  Report cls (String aChar EmptyString)
         (arg_or_default RPT_SEVERITY_UNDEFINED None) this.

(** [reporter << t1 << t2 << ...] *)
Definition stream {R} (cls : REPORTER R) (texts : list string) (this : R)
    : R :=
  foldl (λ r t, shl_text cls t r) this texts.

(** The same texts handed one by one to ReportTail or to ReportHead, with
    the severity left out. *)
Definition tail_each {R} (cls : REPORTER R) (texts : list string) (this : R)
    : R :=
  foldl (λ r t, ReportTail cls t (arg_or_default RPT_SEVERITY_UNDEFINED None) r)
        this texts.

Definition head_each {R} (cls : REPORTER R) (texts : list string) (this : R)
    : R :=
  foldl (λ r t, ReportHead cls t (arg_or_default RPT_SEVERITY_UNDEFINED None) r)
        this texts.

(** X5.  For a class that keeps the base-class bodies, streaming texts with <<
    leaves the reporter as handing the same texts in the same order to
    ReportTail, or to ReportHead, does: all three end in Report with the
    undefined severity.  Streaming a character is streaming the string of
    that one character, and a stream of two lists is the two streams one
    after the other. *)
Theorem stream_is_report_each
    {R} (cls : REPORTER R) (texts more : list string) (c : Ascii.ascii) (this : R) :
  inherits_defaults cls →
  stream cls texts this = tail_each cls texts this ∧
  stream cls texts this = head_each cls texts this ∧
  shl_char cls c this = stream cls [String c EmptyString] this ∧
  stream cls (texts ++ more) this = stream cls more (stream cls texts this).
Proof.
  intros [Htail Hhead].
  assert (∀ t r, shl_text cls t r
            = ReportTail cls t (arg_or_default RPT_SEVERITY_UNDEFINED None) r)
    as Ht by (intros; unfold shl_text, ReportTail; by rewrite Htail).
  assert (∀ t r, shl_text cls t r
            = ReportHead cls t (arg_or_default RPT_SEVERITY_UNDEFINED None) r)
    as Hh by (intros; unfold shl_text, ReportHead; by rewrite Hhead).
  split; [|split; [|split]].
  - unfold stream, tail_each. revert this.
    induction texts as [|t texts IH]; intros this; [reflexivity|].
    cbn [foldl]. rewrite Ht. apply IH.
  - unfold stream, head_each. revert this.
    induction texts as [|t texts IH]; intros this; [reflexivity|].
    cbn [foldl]. rewrite Hh. apply IH.
  - reflexivity.
  - unfold stream. apply foldl_app.
Qed.

End WithSeverity.

Lemma stream_is_report_each_witness :
  stream 0 string_reporter ["a"; "b"] EmptyString = tail_each 0 string_reporter ["a"; "b"] EmptyString.
Proof.
  apply (stream_is_report_each 0 string_reporter ["a"; "b"] [] (Ascii.ascii_of_nat 120) EmptyString).
  split; reflexivity.
Defined.

End ReporterStream.

(** ** PCB_BASE_FRAME::SaveSettings and its round trip (pcbnew/basepcbframe.cpp) *)

Module PcbBaseFrameSettings.
Import PcbBaseFrame.

Lemma append_inv_head (s a b : string) : s +:+ a = s +:+ b → a = b.
Proof.
  induction s as [|c s IH]; simpl; [done|]. intros Heq. apply IH.
  by injection Heq.
Qed.

Section SaveLoad.
Variables LINE FILLED SKETCH INCHES : Z.
Variables ID_POPUP_GRID_USER ID_POPUP_GRID_LEVEL_1000
          ID_POPUP_GRID_LEVEL_500 : Z.
Variables (wxConfigBase double : Type) (double_0_01 : double).
Variable Read_long : wxConfigBase → string → Z → Z.
Variable Read_bool : wxConfigBase → string → bool → bool.
Variable Read_double : wxConfigBase → string → double → double.

(** [cfg->Write( key, value )] for a long, a bool and a double: the
    configuration afterwards. *)
Variable Write_long : wxConfigBase → string → Z → wxConfigBase.
Variable Write_bool : wxConfigBase → string → bool → wxConfigBase.
Variable Write_double : wxConfigBase → string → double → wxConfigBase.

(** The base-class methods, whose bodies are in another file.  Saving is
    not a const method, so it returns the frame as well. *)
Variable EDA_DRAW_FRAME_LoadSettings :
  wxConfigBase → PCB_BASE_FRAME double → PCB_BASE_FRAME double.
Variable EDA_DRAW_FRAME_SaveSettings :
  wxConfigBase → PCB_BASE_FRAME double → wxConfigBase * PCB_BASE_FRAME double.

Local Arguments m_FrameName {_} _.
Local Arguments m_LastGridSizeId {_} _.
Local Arguments m_UserGridSize {_} _.
Local Arguments m_UserGridUnit {_} _.
Local Arguments m_DisplayPadFill {_} _.
Local Arguments m_DisplayViaFill {_} _.
Local Arguments m_DisplayPadNum {_} _.
Local Arguments m_DisplayModEdge {_} _.
Local Arguments m_DisplayModText {_} _.
Local Arguments m_FastGrid1 {_} _.
Local Arguments m_FastGrid2 {_} _.

(** LoadSettings of the frame, over the parameters of this section. *)
Definition Load (aCfg : wxConfigBase) (this : PCB_BASE_FRAME double)
    : PCB_BASE_FRAME double :=
  LoadSettings LINE FILLED SKETCH INCHES ID_POPUP_GRID_USER
    ID_POPUP_GRID_LEVEL_1000 ID_POPUP_GRID_LEVEL_500 wxConfigBase double
    double_0_01 Read_long Read_bool Read_double EDA_DRAW_FRAME_LoadSettings
    aCfg this.

(** PCB_BASE_FRAME::SaveSettings: the base class saves first, then the ten
    entries are written in the order of the source. *)
Definition SaveSettings (aCfg : wxConfigBase) (this : PCB_BASE_FRAME double)
    : wxConfigBase * PCB_BASE_FRAME double :=
  let '(c, f) := EDA_DRAW_FRAME_SaveSettings aCfg this in
  let name := m_FrameName f in
  let c := Write_double c (name +:+ UserGridSizeXEntry)
             (fst (m_UserGridSize f)) in
  let c := Write_double c (name +:+ UserGridSizeYEntry)
             (snd (m_UserGridSize f)) in
  let c := Write_long c (name +:+ UserGridUnitsEntry) (m_UserGridUnit f) in
  let c := Write_bool c (name +:+ DisplayPadFillEntry) (m_DisplayPadFill f) in
  let c := Write_bool c (name +:+ DisplayViaFillEntry) (m_DisplayViaFill f) in
  let c := Write_bool c (name +:+ DisplayPadNumberEntry) (m_DisplayPadNum f) in
  let c := Write_long c (name +:+ DisplayModuleEdgeEntry)
             (m_DisplayModEdge f) in
  let c := Write_long c (name +:+ DisplayModuleTextEntry)
             (m_DisplayModText f) in
  let c := Write_long c (name +:+ FastGrid1Entry) (m_FastGrid1 f) in
  let c := Write_long c (name +:+ FastGrid2Entry) (m_FastGrid2 f) in
  (c, f).

(** What a configuration store promises for long and bool entries: an
    entry reads back as written, and a write to another key leaves it
    alone. *)
Record config_laws : Prop := {
  long_hit : ∀ c k v d, Read_long (Write_long c k v) k d = v;
  long_long : ∀ c k k' v d,
    k ≠ k' → Read_long (Write_long c k' v) k d = Read_long c k d;
  long_bool : ∀ c k k' v d,
    k ≠ k' → Read_long (Write_bool c k' v) k d = Read_long c k d;
  bool_hit : ∀ c k v d, Read_bool (Write_bool c k v) k d = v;
  bool_bool : ∀ c k k' v d,
    k ≠ k' → Read_bool (Write_bool c k' v) k d = Read_bool c k d;
  bool_long : ∀ c k k' v d,
    k ≠ k' → Read_bool (Write_long c k' v) k d = Read_bool c k d;
}.

(** The members of the frame that are C++ ints or enumerations hold int
    values. *)
Definition ints_ok (f : PCB_BASE_FRAME double) : Prop :=
  INT_MIN ≤ m_UserGridUnit f ≤ INT_MAX ∧
  INT_MIN ≤ m_DisplayModEdge f ≤ INT_MAX ∧
  INT_MIN ≤ m_DisplayModText f ≤ INT_MAX ∧
  INT_MIN ≤ m_FastGrid1 f ≤ INT_MAX ∧
  INT_MIN ≤ m_FastGrid2 f ≤ INT_MAX.

(** The settings that are stored as long or bool entries. *)
Definition same_settings (f g : PCB_BASE_FRAME double) : Prop :=
  m_UserGridUnit g = m_UserGridUnit f ∧
  m_DisplayPadFill g = m_DisplayPadFill f ∧
  m_DisplayViaFill g = m_DisplayViaFill f ∧
  m_DisplayPadNum g = m_DisplayPadNum f ∧
  m_DisplayModEdge g = m_DisplayModEdge f ∧
  m_DisplayModText g = m_DisplayModText f ∧
  m_FastGrid1 g = m_FastGrid1 f ∧
  m_FastGrid2 g = m_FastGrid2 f.

Ltac other_key :=
  let Heq := fresh in
  intros Heq; apply append_inv_head in Heq; discriminate Heq.

(** X6.  With a configuration in which none of the entries exists (every read
    gives its default), LoadSettings leaves the defaults of the source:
    user grid 0.01 by 0.01 in inches, pads, vias and pad numbers filled or
    shown, both display modes FILLED, both fast grids 0.  The enumerators
    INCHES and FILLED are ints, so the conversions of the values read
    keep them. *)
Theorem LoadSettings_missing_entries
    (aCfg : wxConfigBase) (this : PCB_BASE_FRAME double) :
  (∀ k d, Read_long aCfg k d = d) →
  (∀ k d, Read_bool aCfg k d = d) →
  (∀ k d, Read_double aCfg k d = d) →
  INT_MIN ≤ FILLED ≤ INT_MAX →
  INT_MIN ≤ INCHES ≤ INT_MAX →
  m_UserGridSize (Load aCfg this) = (double_0_01, double_0_01) ∧
  m_UserGridUnit (Load aCfg this) = INCHES ∧
  m_DisplayPadFill (Load aCfg this) = true ∧
  m_DisplayViaFill (Load aCfg this) = true ∧
  m_DisplayPadNum (Load aCfg this) = true ∧
  m_DisplayModEdge (Load aCfg this) = FILLED ∧
  m_DisplayModText (Load aCfg this) = FILLED ∧
  m_FastGrid1 (Load aCfg this) = 0 ∧
  m_FastGrid2 (Load aCfg this) = 0.
Proof.
  intros Hl Hb Hd HF HI. unfold Load, LoadSettings, Read_int.
  cbn [m_UserGridSize m_UserGridUnit m_DisplayPadFill m_DisplayViaFill
       m_DisplayPadNum m_DisplayModEdge m_DisplayModText m_FastGrid1
       m_FastGrid2].
  rewrite !Hl, !Hb, !Hd, !(to_int_id FILLED HF), (to_int_id INCHES HI).
  assert (clamp_mode LINE FILLED SKETCH FILLED = FILLED) as ->.
  { unfold clamp_mode. by case_match. }
  repeat split; apply to_int_id; unfold INT_MIN, INT_MAX; lia.
Qed.

(** X7.  Saving a frame and loading the written configuration into a frame of
    the same name restores every setting stored as a long or a bool: the
    grid unit, the three pad and via flags, both display modes and both
    fast grids.  It needs the display modes to be valid ones (a mode
    outside [LINE, SKETCH] comes back as FILLED instead), the grid unit
    and the int members to hold ints (each is written as a long and
    converted back on load), and the base class to keep the frame name on
    load. *)
Theorem SaveSettings_LoadSettings_roundtrip
    (aCfg : wxConfigBase) (saved target : PCB_BASE_FRAME double) :
  config_laws →
  ints_ok (snd (SaveSettings aCfg saved)) →
  in_range LINE SKETCH (m_DisplayModEdge (snd (SaveSettings aCfg saved))) →
  in_range LINE SKETCH (m_DisplayModText (snd (SaveSettings aCfg saved))) →
  m_FrameName (EDA_DRAW_FRAME_LoadSettings (fst (SaveSettings aCfg saved))
                 target)
    = m_FrameName (snd (SaveSettings aCfg saved)) →
  same_settings (snd (SaveSettings aCfg saved))
                (Load (fst (SaveSettings aCfg saved)) target).
Proof.
  intros [Hll Hlo Hlb Hbb Hbo Hbl]. unfold SaveSettings.
  destruct (EDA_DRAW_FRAME_SaveSettings aCfg saved) as [c f].
  cbn [fst snd]. intros (Hu & He & Ht & H1 & H2) HrE HrT Hname.
  unfold same_settings, Load, LoadSettings, Read_int.
  cbn [m_UserGridUnit m_DisplayPadFill m_DisplayViaFill m_DisplayPadNum
       m_DisplayModEdge m_DisplayModText m_FastGrid1 m_FastGrid2].
  rewrite Hname.
  repeat (rewrite Hll
          || (rewrite Hlo by other_key)
          || (rewrite Hlb by other_key)
          || rewrite Hbb
          || (rewrite Hbo by other_key)
          || (rewrite Hbl by other_key)).
  rewrite !to_int_id by assumption.
  rewrite !clamp_mode_keeps by assumption.
  repeat split.
Qed.

End SaveLoad.

(** A configuration store held as two finite maps; double entries are not
    kept and read as their default. *)
Record map_config : Type := {
  cfg_longs : gmap string Z;
  cfg_bools : gmap string bool;
}.

Definition mc_Read_long (c : map_config) (k : string) (d : Z) : Z :=
  default d (cfg_longs c !! k).
Definition mc_Read_bool (c : map_config) (k : string) (d : bool) : bool :=
  default d (cfg_bools c !! k).
Definition mc_Write_long (c : map_config) (k : string) (v : Z) : map_config :=
  {| cfg_longs := <[k := v]> (cfg_longs c); cfg_bools := cfg_bools c |}.
Definition mc_Write_bool (c : map_config) (k : string) (v : bool)
    : map_config :=
  {| cfg_longs := cfg_longs c; cfg_bools := <[k := v]> (cfg_bools c) |}.

Lemma map_config_laws :
  config_laws map_config mc_Read_long mc_Read_bool mc_Write_long mc_Write_bool.
Proof.
  split; intros; unfold mc_Read_long, mc_Read_bool; simpl;
    rewrite ?lookup_insert_eq, ?lookup_insert_ne by done; reflexivity.
Qed.

Definition empty_config : map_config :=
  {| cfg_longs := ∅; cfg_bools := ∅ |}.

Definition sketch_frame : PCB_BASE_FRAME unit :=
  {| m_FrameName := "ModEdit"; m_LastGridSizeId := 3;
     m_UserGridSize := (tt, tt); m_UserGridUnit := 1;
     m_DisplayPadFill := false; m_DisplayViaFill := true;
     m_DisplayPadNum := false; m_DisplayModEdge := 2; m_DisplayModText := 0;
     m_FastGrid1 := 4; m_FastGrid2 := 7 |}.

Definition example_save : map_config * PCB_BASE_FRAME unit :=
  SaveSettings map_config unit mc_Write_long mc_Write_bool (λ c _ _, c)
    (λ c f, (c, f)) empty_config sketch_frame.

Definition example_load (c : map_config) (f : PCB_BASE_FRAME unit)
    : PCB_BASE_FRAME unit :=
  Load 0 1 2 0 3 1 2 map_config unit tt mc_Read_long mc_Read_bool
    (λ _ _ d, d) (λ _ f, f) c f.

Lemma LoadSettings_missing_entries_witness :
  m_DisplayModEdge _ (example_load empty_config sketch_frame) = 1 ∧
  m_DisplayPadFill _ (example_load empty_config sketch_frame) = true.
Proof.
  destruct (LoadSettings_missing_entries 0 1 2 0 3 1 2 map_config unit tt
              mc_Read_long mc_Read_bool (λ _ _ d, d) (λ _ f, f)
              empty_config sketch_frame)
    as (_ & _ & Hpad & _ & _ & Hedge & _).
  - reflexivity.
  - reflexivity.
  - reflexivity.
  - vm_compute. split; discriminate.
  - vm_compute. split; discriminate.
  - split; [exact Hedge | exact Hpad].
Defined.

Lemma SaveSettings_LoadSettings_roundtrip_witness :
  same_settings unit sketch_frame
    (example_load (fst example_save)
       {| m_FrameName := "ModEdit"; m_LastGridSizeId := 0;
          m_UserGridSize := (tt, tt); m_UserGridUnit := 0;
          m_DisplayPadFill := true; m_DisplayViaFill := true;
          m_DisplayPadNum := true; m_DisplayModEdge := 1;
          m_DisplayModText := 1; m_FastGrid1 := 0; m_FastGrid2 := 0 |}).
Proof.
  apply (SaveSettings_LoadSettings_roundtrip 0 1 2 0 3 1 2 map_config unit tt
           mc_Read_long mc_Read_bool (λ _ _ d, d) mc_Write_long mc_Write_bool
           (λ c _ _, c) (λ _ f, f) (λ c f, (c, f)) empty_config sketch_frame).
  - apply map_config_laws.
  - vm_compute. repeat split; discriminate.
  - vm_compute. split; discriminate.
  - vm_compute. split; discriminate.
  - reflexivity.
Defined.

End PcbBaseFrameSettings.

(** ** Layer switching and the select boxes (pcbnew/basepcbframe.cpp) *)

Module PcbBaseFrameLayers.
Section SwitchLayer.
(** Layer numbers declared elsewhere, and the test for copper layers. *)
Variables LAYER_N_BACK LAYER_N_FRONT : Z.
Variable IsCopperLayer : Z → bool.

(** What SwitchLayer reads and writes: the active layer of the screen, the
    board's number of copper layers, the contrast display option, and the
    number of times the canvas has been refreshed. *)
Record LAYER_VIEW : Type := {
  m_Active_Layer      : Z;
  CopperLayerCount    : Z;
  ContrastModeDisplay : bool;
  canvas_refreshes    : nat;
}.

(** The checks that make SwitchLayer return before the assignment, for a
    layer other than the present one. *)
Definition refused (layer : Z) (st : LAYER_VIEW) : bool :=
  IsCopperLayer layer &&
  (if bool_decide (CopperLayerCount st < 2)
   then bool_decide (layer ≠ LAYER_N_BACK)
   else bool_decide (layer ≠ LAYER_N_BACK)
        && bool_decide (layer ≠ LAYER_N_FRONT)
        && bool_decide (layer >= CopperLayerCount st - 1)).

(** PCB_BASE_FRAME::SwitchLayer( wxDC* DC, LAYER_NUM layer ); the device
    context is not used. *)
Definition SwitchLayer (layer : Z) (st : LAYER_VIEW) : LAYER_VIEW :=
  let preslayer := m_Active_Layer st in
  if bool_decide (layer = preslayer) then st
  else if refused layer st then st
  else
    {| m_Active_Layer := layer;
       CopperLayerCount := CopperLayerCount st;
       ContrastModeDisplay := ContrastModeDisplay st;
       canvas_refreshes :=
         if ContrastModeDisplay st then S (canvas_refreshes st)
         else canvas_refreshes st |}.

(** The layers a caller may switch to. *)
Definition selectable (layer : Z) (st : LAYER_VIEW) : Prop :=
  IsCopperLayer layer = false ∨
  layer = LAYER_N_BACK ∨
  (2 ≤ CopperLayerCount st ∧
   (layer = LAYER_N_FRONT ∨ layer < CopperLayerCount st - 1)).

Lemma refused_iff (layer : Z) (st : LAYER_VIEW) :
  refused layer st = false ↔ selectable layer st.
Proof.
  unfold refused, selectable.
  destruct (IsCopperLayer layer); simpl; [|tauto].
  repeat case_bool_decide; simpl; split; intros; try done;
    try (right; lia); try (right; left; lia); try (right; right; lia);
    intuition (try discriminate; try lia).
Qed.

(** X8.  After SwitchLayer the active layer is the requested one exactly when
    it already was, or the layer is not a copper layer, or it is the back
    layer, or the board has at least two copper layers and the layer is
    the front layer or an inner layer below the count minus one.  In every
    other case nothing at all changes. *)
Theorem SwitchLayer_selects (layer : Z) (st : LAYER_VIEW) :
  (m_Active_Layer (SwitchLayer layer st) = layer ↔
     layer = m_Active_Layer st ∨ selectable layer st) ∧
  (m_Active_Layer (SwitchLayer layer st) ≠ layer → SwitchLayer layer st = st) ∧
  CopperLayerCount (SwitchLayer layer st) = CopperLayerCount st ∧
  ContrastModeDisplay (SwitchLayer layer st) = ContrastModeDisplay st.
Proof.
  unfold SwitchLayer. case_bool_decide as Hsame.
  { split; [split; [intros _; by left | done]|].
    split; [done|]. by split. }
  destruct (refused layer st) eqn:Href.
  - assert (¬ selectable layer st) as Hno.
    { intros Hs. apply refused_iff in Hs. congruence. }
    split.
    { split; [intros Heq; by left | intros [Heq|Hs]; [congruence | done]]. }
    split; [done|]. by split.
  - apply refused_iff in Href.
    cbn [m_Active_Layer CopperLayerCount ContrastModeDisplay].
    split; [split; [intros _; by right | done]|].
    split; [intros Hne; by destruct Hne|]. by split.
Qed.

Lemma SwitchLayer_cases (layer : Z) (st : LAYER_VIEW) :
  SwitchLayer layer st = st ∧
    (layer = m_Active_Layer st ∨ refused layer st = true) ∨
  layer ≠ m_Active_Layer st ∧
    SwitchLayer layer st =
      {| m_Active_Layer := layer;
         CopperLayerCount := CopperLayerCount st;
         ContrastModeDisplay := ContrastModeDisplay st;
         canvas_refreshes :=
           if ContrastModeDisplay st then S (canvas_refreshes st)
           else canvas_refreshes st |}.
Proof.
  unfold SwitchLayer. case_bool_decide as Hsame; [left; auto|].
  destruct (refused layer st); [left; auto | right; auto].
Qed.

(** X9.  Switching twice to the same layer is switching once, and the canvas
    is refreshed only when the active layer really changes while the
    contrast display mode is on, and then once. *)
Theorem SwitchLayer_idempotent_refresh (layer : Z) (st : LAYER_VIEW) :
  SwitchLayer layer (SwitchLayer layer st) = SwitchLayer layer st ∧
  canvas_refreshes (SwitchLayer layer st) =
    (if bool_decide (m_Active_Layer (SwitchLayer layer st)
                       ≠ m_Active_Layer st)
        && ContrastModeDisplay st
     then S (canvas_refreshes st) else canvas_refreshes st).
Proof.
  destruct (SwitchLayer_cases layer st) as [[Heq _]|[Hne Heq]];
    rewrite Heq.
  - split; [exact Heq|].
    by rewrite bool_decide_eq_false_2 by (intros Hn; by apply Hn).
  - split.
    + unfold SwitchLayer at 1. cbn [m_Active_Layer].
      by rewrite bool_decide_eq_true_2 by reflexivity.
    + cbn [m_Active_Layer canvas_refreshes].
      by rewrite bool_decide_eq_true_2 by exact Hne.
Qed.

End SwitchLayer.

(** Back layer 0, front layer 15, copper layers 0..15, two copper layers:
    the front layer is accepted, inner layer 3 and any inner layer from 1
    on are not, and a technical layer always is. *)
Example SwitchLayer_two_copper_layers :
  let st := {| m_Active_Layer := 0; CopperLayerCount := 2;
               ContrastModeDisplay := true; canvas_refreshes := 0 |} in
  let switch := SwitchLayer 0 15 (λ l, bool_decide (0 ≤ l ≤ 15)) in
  m_Active_Layer (switch 15 st) = 15 ∧
  switch 3 st = st ∧ switch 1 st = st ∧
  m_Active_Layer (switch 21 st) = 21 ∧
  canvas_refreshes (switch 21 st) = 1%nat.
Proof. vm_compute. repeat split. Qed.

End PcbBaseFrameLayers.

Module PcbBaseFrameSelectBoxes.

(** wxNOT_FOUND (wx/defs.h). *)
Definition wxNOT_FOUND : Z := -1.

(** *** The grid select box *)

Section GridSelect.
(** Grid sizes are doubles: their type, the unit conversion, the scaling
    by 1000, the formatting calls, the translation [_( )], the unit
    enumerators, the grid identifiers and the two status-bar updates are
    declared elsewhere. *)
Variable double : Type.
Variable To_User_Unit : Z → double → double.
Variable times_1000 : double → double.
Variable Printf : string → double → string.
Variable StripTrailingZeros : string → string.
Variable tr : string → string.
Variables INCHES MILLIMETRES UNSCALED_UNITS : Z.
Variables ID_POPUP_GRID_USER ID_POPUP_GRID_LEVEL_1000 : Z.
Variable STATUS : Type.
Variables UpdateStatusBar DisplayUnitsMsg : STATUS → STATUS.

(** GRID_TYPE: the identifier and the x size of a grid. *)
Record GRID_TYPE : Type := { m_Id : Z; m_Size_x : double }.

(** What the two grid functions read and write: the screen's grids and
    the identifier of its current grid, the user unit, the frame's
    [m_LastGridSizeId], the grid select box (absent, or present with its
    entries, each a label and the grid identifier it points to, and its
    selection), the auxiliary tool bar pointer and the status bar. *)
Record GRID_SELECT : Type := {
  grids              : list GRID_TYPE;
  current_grid_id    : Z;
  g_UserUnit         : Z;
  m_LastGridSizeId   : Z;
  m_gridSelectBox    : option (list (string * Z) * Z);
  m_auxiliaryToolBar : ptr;
  status_bar         : STATUS;
}.

Definition with_grid_box (box : option (list (string * Z) * Z))
    (st : GRID_SELECT) : GRID_SELECT :=
  {| grids := grids st; current_grid_id := current_grid_id st;
     g_UserUnit := g_UserUnit st; m_LastGridSizeId := m_LastGridSizeId st;
     m_gridSelectBox := box;
     m_auxiliaryToolBar := m_auxiliaryToolBar st;
     status_bar := status_bar st |}.

(** The loop of OnUpdateSelectGrid from index [i] on: the index of the
    first grid whose identifier is the current one, as an int, or
    wxNOT_FOUND. *)
Fixpoint grid_select_from (gid : Z) (gs : list GRID_TYPE) (i : nat) : Z :=
  match gs with
  | [] => wxNOT_FOUND
  | g :: rest =>
      if bool_decide (gid = m_Id g) then to_int (Z.of_nat i)
      else grid_select_from gid rest (S i)
  end.

(** PCB_BASE_FRAME::OnUpdateSelectGrid *)
Definition OnUpdateSelectGrid (st : GRID_SELECT) : GRID_SELECT :=
  match m_gridSelectBox st with
  | None => st
  | Some (entries, selection) =>
      if bool_decide (m_auxiliaryToolBar st = nullptr) then st
      else
        let select := grid_select_from (current_grid_id st) (grids st) 0 in
        if bool_decide (select ≠ selection)
        then with_grid_box (Some (entries, select)) st
        else st
  end.

(** The format chosen by the switch on the user unit. *)
Definition grid_format (unit : Z) : string :=
  if bool_decide (unit = INCHES) || bool_decide (unit = MILLIMETRES)
  then tr "Grid:" +:+ " %.6f"
  else if bool_decide (unit = UNSCALED_UNITS) then tr "Grid:" +:+ " %f"
  else tr "Grid:".

(** The text appended for one grid. *)
Definition grid_label (unit : Z) (g : GRID_TYPE) : string :=
  let value := To_User_Unit unit (m_Size_x g) in
  let value := if bool_decide (unit = INCHES) then times_1000 value
               else value in
  if bool_decide (m_Id g ≠ ID_POPUP_GRID_USER)
  then StripTrailingZeros (Printf (grid_format unit) value)
  else tr "User Grid".

(** The loop of updateGridSelectBox from index [i] on: every grid is
    appended with a pointer to its identifier, and each grid whose
    identifier is [wanted] is selected in turn. *)
Fixpoint grid_fill (unit wanted : Z) (gs : list GRID_TYPE) (i : nat)
    (entries : list (string * Z)) (sel : Z) : list (string * Z) * Z :=
  match gs with
  | [] => (entries, sel)
  | g :: rest =>
      grid_fill unit wanted rest (S i)
        (entries ++ [(grid_label unit g, m_Id g)])
        (if bool_decide (wanted = m_Id g) then to_int (Z.of_nat i) else sel)
  end.

(** PCB_BASE_FRAME::updateGridSelectBox.  The status bar is updated
    first, with or without a box; clearing the box leaves it without a
    selection. *)
Definition updateGridSelectBox (st : GRID_SELECT) : GRID_SELECT :=
  let status := DisplayUnitsMsg (UpdateStatusBar (status_bar st)) in
  {| grids := grids st; current_grid_id := current_grid_id st;
     g_UserUnit := g_UserUnit st; m_LastGridSizeId := m_LastGridSizeId st;
     m_gridSelectBox :=
       match m_gridSelectBox st with
       | None => None
       | Some _ =>
           Some (grid_fill (g_UserUnit st)
                   (m_LastGridSizeId st + ID_POPUP_GRID_LEVEL_1000)
                   (grids st) 0 [] wxNOT_FOUND)
       end;
     m_auxiliaryToolBar := m_auxiliaryToolBar st;
     status_bar := status |}.

(** Number of grids with the identifier [gid]. *)
Definition grid_hits (gid : Z) (gs : list GRID_TYPE) : nat :=
  length (filter (λ g, gid = m_Id g) gs).

Lemma grid_select_from_spec (gid : Z) (gs : list GRID_TYPE) :
  ∀ i : nat,
    Z.of_nat i + Z.of_nat (length gs) ≤ INT_MAX + 1 →
    (grid_select_from gid gs i = wxNOT_FOUND ∧ gid ∉ m_Id <$> gs) ∨
    ∃ k : nat,
      grid_select_from gid gs i = Z.of_nat (i + k) ∧
      m_Id <$> (gs !! k) = Some gid ∧
      ∀ j, (j < k)%nat → m_Id <$> (gs !! j) ≠ Some gid.
Proof.
  induction gs as [|g rest IH]; intros i Hlen; simpl in *.
  - left. split; [done | apply not_elem_of_nil].
  - case_bool_decide as Hid.
    + right. exists 0%nat. rewrite Nat.add_0_r.
      split; [|split; [by rewrite Hid | intros j Hj; lia]].
      apply to_int_id. unfold INT_MIN, INT_MAX in *. lia.
    + destruct (IH (S i)) as [[Hnf Hnot]|(k & Hsel & Hk & Hfirst)]; [lia| |].
      * left. split; [done|]. apply not_elem_of_cons. by split.
      * right. exists (S k). split; [|split; [done|]].
        { rewrite Hsel. f_equal. lia. }
        intros [|j] Hj; simpl; [congruence | apply Hfirst; lia].
Qed.

Lemma OnUpdateSelectGrid_cases (st : GRID_SELECT) :
  OnUpdateSelectGrid st = st ∨
  ∃ entries selection,
    m_gridSelectBox st = Some (entries, selection) ∧
    m_auxiliaryToolBar st ≠ nullptr ∧
    grid_select_from (current_grid_id st) (grids st) 0 ≠ selection ∧
    OnUpdateSelectGrid st =
      with_grid_box
        (Some (entries, grid_select_from (current_grid_id st) (grids st) 0))
        st.
Proof.
  unfold OnUpdateSelectGrid.
  destruct (m_gridSelectBox st) as [[entries selection]|]; [|by left].
  case_bool_decide as Htb; [by left|].
  case_bool_decide as Hne; [|by left].
  right. by exists entries, selection.
Qed.

(** X10.  With the box and the tool bar present and at most INT_MAX
    grids, after OnUpdateSelectGrid the box selects the first grid whose
    identifier is the current grid's, or wxNOT_FOUND when there is none,
    and keeps its entries; nothing is touched when the selection was
    already that one; a second call changes nothing.  Without the box or
    the tool bar nothing changes at all. *)
Theorem OnUpdateSelectGrid_selects_first (st : GRID_SELECT) :
  Z.of_nat (length (grids st)) ≤ INT_MAX →
  (m_gridSelectBox st = None ∨ m_auxiliaryToolBar st = nullptr →
     OnUpdateSelectGrid st = st) ∧
  (∀ entries selection,
     m_gridSelectBox st = Some (entries, selection) →
     m_auxiliaryToolBar st ≠ nullptr →
     ∃ select,
       m_gridSelectBox (OnUpdateSelectGrid st) = Some (entries, select) ∧
       (select = selection → OnUpdateSelectGrid st = st) ∧
       ((select = wxNOT_FOUND ∧ current_grid_id st ∉ m_Id <$> grids st) ∨
        (0 ≤ select < Z.of_nat (length (grids st)) ∧
         m_Id <$> (grids st !! Z.to_nat select) = Some (current_grid_id st) ∧
         ∀ j, (j < Z.to_nat select)%nat →
              m_Id <$> (grids st !! j) ≠ Some (current_grid_id st)))) ∧
  OnUpdateSelectGrid (OnUpdateSelectGrid st) = OnUpdateSelectGrid st.
Proof.
  intros Hlen. split; [|split].
  - unfold OnUpdateSelectGrid. intros [-> | Htb]; [done|].
    destruct (m_gridSelectBox st) as [[? ?]|]; [|done].
    by rewrite bool_decide_eq_true_2.
  - intros entries selection Hbox Htb.
    exists (grid_select_from (current_grid_id st) (grids st) 0).
    split; [|split].
    + unfold OnUpdateSelectGrid. rewrite Hbox.
      rewrite bool_decide_eq_false_2 by done.
      case_bool_decide as Hne; [done|]. by rewrite Hbox, Hne.
    + intros Heq. unfold OnUpdateSelectGrid. rewrite Hbox.
      rewrite bool_decide_eq_false_2 by done.
      by rewrite bool_decide_eq_false_2 by (intros Hn; by apply Hn).
    + destruct (grid_select_from_spec (current_grid_id st) (grids st) 0)
        as [[Hnf Hnot]|(k & Hsel & Hk & Hfirst)]; [lia | by left |].
      right. rewrite Hsel. simpl. rewrite Nat2Z.id.
      destruct (grids st !! k) eqn:Hg; [|done].
      apply lookup_lt_Some in Hg. split; [lia|]. by split.
  - destruct (OnUpdateSelectGrid_cases st)
      as [Heq|(entries & selection & Hbox & Htb & Hne & Heq)];
      rewrite Heq; [exact Heq|].
    unfold OnUpdateSelectGrid, with_grid_box.
    cbn [m_gridSelectBox m_auxiliaryToolBar current_grid_id grids].
    rewrite bool_decide_eq_false_2 by done.
    by rewrite bool_decide_eq_false_2 by (intros Hn; by apply Hn).
Qed.

Lemma grid_fill_entries (unit wanted : Z) (gs : list GRID_TYPE) :
  ∀ i entries sel,
    fst (grid_fill unit wanted gs i entries sel)
      = entries ++ ((λ g, (grid_label unit g, m_Id g)) <$> gs).
Proof.
  induction gs as [|g rest IH]; intros i entries sel; simpl.
  - by rewrite app_nil_r.
  - rewrite IH. by rewrite <- app_assoc.
Qed.

Lemma grid_fill_no_hit (unit wanted : Z) (gs : list GRID_TYPE) :
  ∀ i entries sel,
    grid_hits wanted gs = 0%nat →
    snd (grid_fill unit wanted gs i entries sel) = sel.
Proof.
  unfold grid_hits.
  induction gs as [|g rest IH]; intros i entries sel; simpl; [done|].
  case_bool_decide as Hg.
  - rewrite filter_cons_True by done. simpl. lia.
  - rewrite filter_cons_False by done. apply IH.
Qed.

Lemma grid_fill_one_hit (unit wanted : Z) (gs : list GRID_TYPE) :
  ∀ i entries,
    (grid_hits wanted gs ≤ 1)%nat →
    snd (grid_fill unit wanted gs i entries wxNOT_FOUND)
      = grid_select_from wanted gs i.
Proof.
  unfold grid_hits.
  induction gs as [|g rest IH]; intros i entries; simpl; [done|].
  case_bool_decide as Hg.
  - rewrite filter_cons_True by done. simpl. intros Hle.
    apply grid_fill_no_hit. unfold grid_hits. lia.
  - rewrite filter_cons_False by done. apply IH.
Qed.

Lemma grid_fill_last_hit (unit wanted : Z) (gs : list GRID_TYPE) :
  ∀ i entries sel,
    (snd (grid_fill unit wanted gs i entries sel) = sel ∧
     wanted ∉ m_Id <$> gs) ∨
    ∃ k : nat,
      snd (grid_fill unit wanted gs i entries sel) = to_int (Z.of_nat (i + k)) ∧
      m_Id <$> (gs !! k) = Some wanted ∧
      ∀ j, (k < j)%nat → m_Id <$> (gs !! j) ≠ Some wanted.
Proof.
  induction gs as [|g rest IH]; intros i entries sel; simpl.
  - left. split; [done | apply not_elem_of_nil].
  - destruct (IH (S i) (entries ++ [(grid_label unit g, m_Id g)])
                (if bool_decide (wanted = m_Id g) then to_int (Z.of_nat i)
                 else sel))
      as [[Hsel Hnone]|(k & Hsel & Hk & Hlast)].
    + case_bool_decide as Hg.
      * right. exists 0%nat. rewrite Nat.add_0_r.
        split; [done|]. split; [by rewrite Hg|].
        intros [|j] Hj; [lia|]. simpl. intros Hlook.
        destruct (rest !! j) as [g'|] eqn:Hj'; [|done].
        apply Hnone. simpl in Hlook. injection Hlook as <-.
        apply list_elem_of_fmap_2. by eapply list_elem_of_lookup_2.
      * left. split; [done|]. apply not_elem_of_cons. by split.
    + right. exists (S k). split; [|split; [done|]].
      { rewrite Hsel. do 2 f_equal. lia. }
      intros [|j] Hj; [lia|]. simpl. apply Hlast. lia.
Qed.

(** X11.  updateGridSelectBox always runs the two status-bar updates and
    keeps an absent box absent.  With the box present and at most INT_MAX
    grids it leaves one entry per grid of the screen, in order, each
    pointing to the identifier of its grid, the user grid being labelled
    "User Grid" and the others by their size; and it selects the last grid
    whose identifier is [m_LastGridSizeId + ID_POPUP_GRID_LEVEL_1000],
    or nothing when no grid has it. *)
Theorem updateGridSelectBox_fills (st : GRID_SELECT) :
  Z.of_nat (length (grids st)) ≤ INT_MAX →
  status_bar (updateGridSelectBox st)
    = DisplayUnitsMsg (UpdateStatusBar (status_bar st)) ∧
  (m_gridSelectBox st = None → m_gridSelectBox (updateGridSelectBox st) = None) ∧
  (is_Some (m_gridSelectBox st) →
   ∃ entries sel,
     m_gridSelectBox (updateGridSelectBox st) = Some (entries, sel) ∧
     entries.*2 = m_Id <$> grids st ∧
     (∀ k g, grids st !! k = Some g →
        entries.*1 !! k
          = Some (if bool_decide (m_Id g = ID_POPUP_GRID_USER)
                  then tr "User Grid"
                  else grid_label (g_UserUnit st) g)) ∧
     ((sel = wxNOT_FOUND ∧
       m_LastGridSizeId st + ID_POPUP_GRID_LEVEL_1000 ∉ m_Id <$> grids st) ∨
      ∃ k : nat,
        sel = Z.of_nat k ∧
        m_Id <$> (grids st !! k)
          = Some (m_LastGridSizeId st + ID_POPUP_GRID_LEVEL_1000) ∧
        ∀ j, (k < j)%nat →
             m_Id <$> (grids st !! j)
               ≠ Some (m_LastGridSizeId st + ID_POPUP_GRID_LEVEL_1000))).
Proof.
  intros Hlen. split; [reflexivity|]. split.
  { unfold updateGridSelectBox. by intros ->. }
  intros [b Hb]. unfold updateGridSelectBox. rewrite Hb.
  cbn [m_gridSelectBox].
  pose proof (grid_fill_entries (g_UserUnit st)
                (m_LastGridSizeId st + ID_POPUP_GRID_LEVEL_1000)
                (grids st) 0 [] wxNOT_FOUND) as Hent.
  pose proof (grid_fill_last_hit (g_UserUnit st)
                (m_LastGridSizeId st + ID_POPUP_GRID_LEVEL_1000)
                (grids st) 0 [] wxNOT_FOUND) as Hlast.
  destruct (grid_fill (g_UserUnit st)
              (m_LastGridSizeId st + ID_POPUP_GRID_LEVEL_1000)
              (grids st) 0 [] wxNOT_FOUND) as [entries sel].
  simpl in Hent, Hlast. subst entries.
  eexists _, sel. split; [reflexivity|]. split; [|split].
  - rewrite <- list_fmap_compose. reflexivity.
  - intros k g Hk. rewrite <- list_fmap_compose, list_lookup_fmap, Hk.
    simpl. f_equal. unfold grid_label.
    repeat case_bool_decide; done.
  - destruct Hlast as [[Hsel Hnone]|(k & Hsel & Hk & Hl)]; [by left|].
    right. exists k. split; [|by split].
    rewrite Hsel. simpl.
    destruct (grids st !! k) eqn:Hg; [|done].
    apply lookup_lt_Some in Hg.
    apply to_int_id. unfold INT_MIN, INT_MAX in *. lia.
Qed.

(** X12.  When at most one grid has the identifier
    [m_LastGridSizeId + ID_POPUP_GRID_LEVEL_1000] and that is the screen's
    current grid, the selection updateGridSelectBox makes is the one
    OnUpdateSelectGrid looks for, so OnUpdateSelectGrid right after it
    changes nothing. *)
Theorem OnUpdateSelectGrid_after_update (st : GRID_SELECT) :
  (grid_hits (m_LastGridSizeId st + ID_POPUP_GRID_LEVEL_1000) (grids st)
     ≤ 1)%nat →
  current_grid_id st = m_LastGridSizeId st + ID_POPUP_GRID_LEVEL_1000 →
  OnUpdateSelectGrid (updateGridSelectBox st) = updateGridSelectBox st.
Proof.
  intros Hone Hcur.
  unfold updateGridSelectBox, OnUpdateSelectGrid.
  cbn [m_gridSelectBox m_auxiliaryToolBar current_grid_id grids].
  destruct (m_gridSelectBox st) as [b|]; [|done].
  destruct (grid_fill (g_UserUnit st)
              (m_LastGridSizeId st + ID_POPUP_GRID_LEVEL_1000)
              (grids st) 0 [] wxNOT_FOUND) as [entries sel] eqn:Hfill.
  case_bool_decide as Htb; [done|].
  pose proof (grid_fill_one_hit (g_UserUnit st)
                (m_LastGridSizeId st + ID_POPUP_GRID_LEVEL_1000)
                (grids st) 0 [] Hone) as Hsel.
  rewrite Hfill in Hsel. simpl in Hsel. subst sel. rewrite Hcur.
  by rewrite bool_decide_eq_false_2 by (intros Hn; by apply Hn).
Qed.

End GridSelect.

(** Grids with integer sizes, labelled by their size in mils. *)
Definition example_grids : list (GRID_TYPE Z) :=
  [ {| m_Id := 1001; m_Size_x := 100 |};
    {| m_Id := 1002; m_Size_x := 50 |};
    {| m_Id := 1009; m_Size_x := 1 |} ].

Definition example_grid_select (wanted : Z) : GRID_SELECT Z unit :=
  {| grids := example_grids; current_grid_id := wanted;
     g_UserUnit := 0; m_LastGridSizeId := wanted - 1000;
     m_gridSelectBox := Some ([], 2); m_auxiliaryToolBar := 8%N;
     status_bar := tt |}.

Definition example_updateGrid (wanted : Z) : GRID_SELECT Z unit :=
  updateGridSelectBox Z (λ _ x, x) (λ x, x * 1000)
    (λ _ x, if bool_decide (x = 0) then "0" else "n") id id 0 1 2 1009 1000
    unit id id (example_grid_select wanted).

Example updateGridSelectBox_example :
  m_gridSelectBox Z unit (example_updateGrid 1002)
    = Some ([("n", 1001); ("n", 1002); ("User Grid", 1009)], 1) ∧
  snd <$> m_gridSelectBox Z unit (example_updateGrid 1234) = Some wxNOT_FOUND.
Proof. split; vm_compute; reflexivity. Qed.

Lemma OnUpdateSelectGrid_selects_first_witness :
  OnUpdateSelectGrid Z unit (OnUpdateSelectGrid Z unit (example_grid_select 1002))
    = OnUpdateSelectGrid Z unit (example_grid_select 1002).
Proof.
  apply (OnUpdateSelectGrid_selects_first Z unit (example_grid_select 1002)).
  vm_compute. discriminate.
Defined.

Lemma updateGridSelectBox_fills_witness :
  status_bar Z unit (example_updateGrid 1002) = tt.
Proof.
  destruct (updateGridSelectBox_fills Z (λ _ x, x) (λ x, x * 1000)
              (λ _ x, if bool_decide (x = 0) then "0" else "n") id id 0 1 2
              1009 1000 unit id id (example_grid_select 1002))
    as (Hstatus & _).
  - vm_compute. discriminate.
  - exact Hstatus.
Defined.

Lemma OnUpdateSelectGrid_after_update_witness :
  OnUpdateSelectGrid Z unit (example_updateGrid 1002) = example_updateGrid 1002.
Proof.
  apply (OnUpdateSelectGrid_after_update Z (λ _ x, x) (λ x, x * 1000)
           (λ _ x, if bool_decide (x = 0) then "0" else "n") id id 0 1 2
           1009 1000 unit id id (example_grid_select 1002)).
  - vm_compute. lia.
  - reflexivity.
Defined.

(** *** The zoom select box *)

Section ZoomSelect.
(** Zoom factors are doubles: their type, the comparison [==] on it, the
    translation [_( )] and [wxString::Format( "%g", x )] are taken as
    given. *)
Variable double : Type.
Variable double_eq : double → double → bool.
Variable tr : string → string.
Variable format_g : double → string.

(** What the two zoom functions read and write: the screen's zoom list and
    current zoom, the zoom select box (absent, or present with its entries
    and its selection) and the auxiliary tool bar pointer. *)
Record ZOOM_SELECT : Type := {
  m_ZoomList             : list double;
  screen_zoom            : double;
  m_zoomSelectBox        : option (list string * Z);
  zoom_auxiliaryToolBar  : ptr;
}.

Definition zoom_label (z : double) : string := tr "Zoom " +:+ format_g z.

(** The loop of updateZoomSelectBox from index [i] on: every zoom is
    appended, and each one equal to the current zoom is selected in turn. *)
Fixpoint zoom_fill (cur : double) (zs : list double) (i : nat)
    (items : list string) (sel : Z) : list string * Z :=
  match zs with
  | [] => (items, sel)
  | z :: rest =>
      zoom_fill cur rest (S i) (items ++ [zoom_label z])
        (if double_eq cur z then to_int (Z.of_nat i + 1) else sel)
  end.

(** PCB_BASE_FRAME::updateZoomSelectBox *)
Definition updateZoomSelectBox (st : ZOOM_SELECT) : ZOOM_SELECT :=
  match m_zoomSelectBox st with
  | None => st
  | Some _ =>
      {| m_ZoomList := m_ZoomList st;
         screen_zoom := screen_zoom st;
         m_zoomSelectBox :=
           Some (zoom_fill (screen_zoom st) (m_ZoomList st) 0 [tr "Auto"] 0);
         zoom_auxiliaryToolBar := zoom_auxiliaryToolBar st |}
  end.

(** The loop of OnUpdateSelectZoom from index [i] on: one more than the
    index of the first zoom equal to the current one, or 0. *)
Fixpoint zoom_current_from (cur : double) (zs : list double) (i : nat) : Z :=
  match zs with
  | [] => 0
  | z :: rest =>
      if double_eq cur z then to_int (Z.of_nat i + 1)
      else zoom_current_from cur rest (S i)
  end.

(** PCB_BASE_FRAME::OnUpdateSelectZoom *)
Definition OnUpdateSelectZoom (st : ZOOM_SELECT) : ZOOM_SELECT :=
  match m_zoomSelectBox st with
  | None => st
  | Some (items, selection) =>
      if bool_decide (zoom_auxiliaryToolBar st = nullptr) then st
      else
        let current :=
          zoom_current_from (screen_zoom st) (m_ZoomList st) 0 in
        if bool_decide (current ≠ selection) then
          {| m_ZoomList := m_ZoomList st;
             screen_zoom := screen_zoom st;
             m_zoomSelectBox := Some (items, current);
             zoom_auxiliaryToolBar := zoom_auxiliaryToolBar st |}
        else st
  end.

(** Number of entries of the zoom list equal to the current zoom. *)
Definition zoom_hits (cur : double) (zs : list double) : nat :=
  length (filter (λ z, double_eq cur z = true) zs).

Lemma zoom_fill_items (cur : double) (zs : list double) :
  ∀ i items sel,
    fst (zoom_fill cur zs i items sel) = items ++ (zoom_label <$> zs).
Proof.
  induction zs as [|z rest IH]; intros i items sel; simpl.
  - by rewrite app_nil_r.
  - rewrite IH. by rewrite <- app_assoc.
Qed.

Lemma zoom_fill_no_hit (cur : double) (zs : list double) :
  ∀ i items sel,
    zoom_hits cur zs = 0%nat → snd (zoom_fill cur zs i items sel) = sel.
Proof.
  unfold zoom_hits.
  induction zs as [|z rest IH]; intros i items sel; simpl; [done|].
  destruct (double_eq cur z) eqn:Hz.
  - rewrite filter_cons_True by done. simpl. lia.
  - rewrite filter_cons_False by congruence. apply IH.
Qed.

Lemma zoom_fill_one_hit (cur : double) (zs : list double) :
  ∀ i items,
    (zoom_hits cur zs ≤ 1)%nat →
    snd (zoom_fill cur zs i items 0) = zoom_current_from cur zs i.
Proof.
  unfold zoom_hits.
  induction zs as [|z rest IH]; intros i items; simpl; [done|].
  destruct (double_eq cur z) eqn:Hz.
  - rewrite filter_cons_True by done. simpl. intros Hle.
    apply zoom_fill_no_hit. unfold zoom_hits. lia.
  - rewrite filter_cons_False by congruence. apply IH.
Qed.

Lemma zoom_fill_last_hit (cur : double) (zs : list double) :
  ∀ i items sel,
    (snd (zoom_fill cur zs i items sel) = sel ∧
     Forall (λ z, double_eq cur z = false) zs) ∨
    ∃ (k : nat) (z : double),
      snd (zoom_fill cur zs i items sel) = to_int (Z.of_nat (i + k) + 1) ∧
      zs !! k = Some z ∧ double_eq cur z = true ∧
      ∀ j z', (k < j)%nat → zs !! j = Some z' → double_eq cur z' = false.
Proof.
  induction zs as [|z rest IH]; intros i items sel; simpl.
  - left. split; [done | constructor].
  - destruct (IH (S i) (items ++ [zoom_label z])
                (if double_eq cur z then to_int (Z.of_nat i + 1) else sel))
      as [[Hsel Hnone]|(k & z' & Hsel & Hk & Hz' & Hlast)].
    + destruct (double_eq cur z) eqn:Hz.
      * right. exists 0%nat, z. rewrite Nat.add_0_r.
        split; [done|]. split; [done|]. split; [done|].
        intros [|j] z'' Hj Hlook; [lia|]. simpl in Hlook.
        exact (proj1 (Forall_lookup _ _) Hnone j z'' Hlook).
      * left. split; [done|]. by constructor.
    + right. exists (S k), z'. split; [|split; [done|split; [done|]]].
      { rewrite Hsel. do 2 f_equal. lia. }
      intros [|j] z'' Hj Hlook; [lia|]. simpl in Hlook.
      eapply Hlast; [|exact Hlook]. lia.
Qed.

(** X13.  With the box present and fewer than INT_MAX zooms, updateZoomSelectBox
    leaves the entry "Auto" followed by one entry per zoom of the list, in
    order, and selects the entry of the last zoom equal to the current one,
    or "Auto" (entry 0) when no zoom is equal to it.  Without the box
    nothing changes. *)
Theorem updateZoomSelectBox_fills (st : ZOOM_SELECT) :
  Z.of_nat (length (m_ZoomList st)) < INT_MAX →
  (m_zoomSelectBox st = None → updateZoomSelectBox st = st) ∧
  (is_Some (m_zoomSelectBox st) →
   ∃ sel,
     m_zoomSelectBox (updateZoomSelectBox st)
       = Some (tr "Auto" :: (zoom_label <$> m_ZoomList st), sel) ∧
     ((sel = 0 ∧
       Forall (λ z, double_eq (screen_zoom st) z = false) (m_ZoomList st)) ∨
      ∃ (k : nat) (z : double),
        sel = Z.of_nat k + 1 ∧ m_ZoomList st !! k = Some z ∧
        double_eq (screen_zoom st) z = true ∧
        ∀ j z', (k < j)%nat → m_ZoomList st !! j = Some z' →
                double_eq (screen_zoom st) z' = false)).
Proof.
  intros Hlen. unfold updateZoomSelectBox. split.
  { by intros ->. }
  intros [b Hb]. rewrite Hb. cbn [m_zoomSelectBox].
  exists (snd (zoom_fill (screen_zoom st) (m_ZoomList st) 0 [tr "Auto"] 0)).
  split.
  { f_equal. apply injective_projections; [|done]. cbn [fst].
    by rewrite zoom_fill_items. }
  destruct (zoom_fill_last_hit (screen_zoom st) (m_ZoomList st) 0
              [tr "Auto"] 0) as [[Hsel Hnone]|(k & z & Hsel & Hk & Hz & Hl)].
  - left. by split.
  - right. exists k, z. split; [|by split].
    rewrite Hsel. simpl. apply lookup_lt_Some in Hk.
    apply to_int_id. unfold INT_MIN, INT_MAX in *. lia.
Qed.

(** X14.  When at most one zoom of the list equals the current zoom, the
    selection made by updateZoomSelectBox is the one OnUpdateSelectZoom
    looks for, so OnUpdateSelectZoom right after it changes nothing. *)
Theorem OnUpdateSelectZoom_after_update (st : ZOOM_SELECT) :
  (zoom_hits (screen_zoom st) (m_ZoomList st) ≤ 1)%nat →
  OnUpdateSelectZoom (updateZoomSelectBox st) = updateZoomSelectBox st.
Proof.
  intros Hone. unfold updateZoomSelectBox.
  destruct (m_zoomSelectBox st) as [b|] eqn:Hb.
  - unfold OnUpdateSelectZoom.
    cbn [m_zoomSelectBox zoom_auxiliaryToolBar screen_zoom m_ZoomList].
    destruct (zoom_fill (screen_zoom st) (m_ZoomList st) 0 [tr "Auto"] 0)
      as [items sel] eqn:Hfill.
    case_bool_decide as Htb; [done|].
    pose proof (zoom_fill_one_hit (screen_zoom st) (m_ZoomList st) 0
                  [tr "Auto"] Hone) as Hsel.
    rewrite Hfill in Hsel. simpl in Hsel. subst sel.
    by rewrite bool_decide_eq_false_2 by (intros Hn; by apply Hn).
  - unfold OnUpdateSelectZoom. by rewrite Hb.
Qed.

End ZoomSelect.

(** Zooms as integers compared with integer equality, labelled with a
    fixed text. *)
Definition example_zoom_select (zooms : list Z) : ZOOM_SELECT Z :=
  {| m_ZoomList := zooms; screen_zoom := 4;
     m_zoomSelectBox := Some ([], 0); zoom_auxiliaryToolBar := 8%N |}.

Definition example_updateZoom (zooms : list Z) : ZOOM_SELECT Z :=
  updateZoomSelectBox Z Z.eqb id (λ _, "x") (example_zoom_select zooms).

(** With the current zoom twice in the list the two functions disagree:
    the box is filled selecting the last occurrence, and the update handler
    then moves the selection to the first. *)
Example zoom_duplicates_disagree :
  snd <$> m_zoomSelectBox Z (example_updateZoom [2; 4; 8; 4]) = Some 4 ∧
  snd <$> m_zoomSelectBox Z
            (OnUpdateSelectZoom Z Z.eqb (example_updateZoom [2; 4; 8; 4]))
    = Some 2.
Proof. split; vm_compute; reflexivity. Qed.

Lemma updateZoomSelectBox_fills_witness :
  ∃ sel, m_zoomSelectBox Z (example_updateZoom [2; 4; 8])
           = Some ("Auto" :: (zoom_label Z id (λ _, "x") <$> [2; 4; 8]), sel).
Proof.
  destruct (updateZoomSelectBox_fills Z Z.eqb id (λ _, "x")
              (example_zoom_select [2; 4; 8])) as [_ Hfill].
  - vm_compute. reflexivity.
  - destruct Hfill as (sel & Hbox & _); [by eexists|].
    exists sel. exact Hbox.
Defined.

Lemma OnUpdateSelectZoom_after_update_witness :
  OnUpdateSelectZoom Z Z.eqb (example_updateZoom [2; 4; 8])
    = example_updateZoom [2; 4; 8].
Proof.
  apply (OnUpdateSelectZoom_after_update Z Z.eqb id (λ _, "x")
           (example_zoom_select [2; 4; 8])).
  vm_compute. lia.
Defined.

End PcbBaseFrameSelectBoxes.

(** ** Tool selection and the pad draw mode (pcbnew/basepcbframe.cpp) *)

Module PcbBaseFrameTools.

Section SetToolID.
(** The frame as far as SetToolID is concerned is opaque: the base-class
    SetToolID, GetToolId, the contrast display option, the canvas pointer
    and the canvas refresh are declared in other files. *)
Variable FRAME : Type.
Variable ID_TRACK_BUTT : Z.
Variable EDA_DRAW_FRAME_SetToolID : Z → Z → string → FRAME → FRAME.
Variable GetToolId : FRAME → Z.
Variable ContrastModeDisplay : FRAME → bool.
Variable m_canvas : FRAME → ptr.
Variable Refresh : FRAME → FRAME.

(** PCB_BASE_FRAME::SetToolID *)
Definition SetToolID (aId aCursor : Z) (aToolMsg : string) (this : FRAME)
    : FRAME :=
  let f := EDA_DRAW_FRAME_SetToolID aId aCursor aToolMsg this in
  if bool_decide (aId < 0) then f
  else
    let redraw :=
      (bool_decide (GetToolId f = ID_TRACK_BUTT)
         && bool_decide (aId ≠ ID_TRACK_BUTT)
       || bool_decide (GetToolId f ≠ ID_TRACK_BUTT)
            && bool_decide (aId = ID_TRACK_BUTT))
      && ContrastModeDisplay f in
    if redraw && bool_decide (m_canvas f ≠ nullptr) then Refresh f else f.

(** X15.  The transition test of SetToolID compares the new tool with the tool
    that is current after the base class has run.  So whenever the base
    class has made [aId] the current tool, or [aId] is negative, SetToolID
    is just the base-class call: the canvas is not refreshed, in contrast
    mode or not, entering or leaving ID_TRACK_BUTT or not. *)
Theorem SetToolID_never_refreshes
    (aId aCursor : Z) (aToolMsg : string) (this : FRAME) :
  aId < 0 ∨
  GetToolId (EDA_DRAW_FRAME_SetToolID aId aCursor aToolMsg this) = aId →
  SetToolID aId aCursor aToolMsg this
    = EDA_DRAW_FRAME_SetToolID aId aCursor aToolMsg this.
Proof.
  intros Hcase. unfold SetToolID.
  case_bool_decide as Hneg; [done|].
  destruct Hcase as [Hlt|Hcur]; [lia|]. rewrite Hcur.
  destruct (decide (aId = ID_TRACK_BUTT)) as [Ht|Ht].
  - rewrite (bool_decide_eq_false_2 (aId ≠ ID_TRACK_BUTT)) by tauto.
    rewrite andb_false_r. done.
  - rewrite (bool_decide_eq_false_2 (aId = ID_TRACK_BUTT)) by done.
    rewrite andb_false_r. done.
Qed.

End SetToolID.

(** A frame that is its tool identifier and a count of canvas refreshes;
    the base class stores a tool identifier that is not negative. *)
Definition tool_frame : Type := Z * nat.

Definition tool_base_SetToolID (aId aCursor : Z) (aToolMsg : string)
    (f : tool_frame) : tool_frame :=
  if bool_decide (aId < 0) then f else (aId, snd f).

Lemma SetToolID_never_refreshes_witness :
  SetToolID tool_frame 7 tool_base_SetToolID fst (λ _, true) (λ _, 1%N)
    (λ f, (fst f, S (snd f))) 7 0 "Add tracks" (3, 0%nat) = (7, 0%nat).
Proof.
  rewrite (SetToolID_never_refreshes tool_frame 7 tool_base_SetToolID fst
             (λ _, true) (λ _, 1%N) (λ f, (fst f, S (snd f)))
             7 0 "Add tracks" (3, 0%nat)).
  - reflexivity.
  - right. reflexivity.
Defined.

(** With a base class that leaves the current tool alone, the refresh is
    reached: leaving ID_TRACK_BUTT (7) in contrast mode refreshes once. *)
Example SetToolID_refresh_reachable :
  SetToolID tool_frame 7 (λ _ _ _ f, f) fst (λ _, true) (λ _, 1%N)
    (λ f, (fst f, S (snd f))) 5 0 "Select" (7, 0%nat) = (7, 1%nat).
Proof. vm_compute. reflexivity. Qed.

Section PadDrawMode.
(** The translation [_( )], the pads and the render settings of the GAL
    painter are declared elsewhere. *)
Variable tr : string → string.
Variables PAD RENDER_SETTINGS : Type.

(** The global DisplayOpt: the members basepcbframe.cpp uses, and the
    rest of the structure. *)
Variable OTHER_OPTIONS : Type.
Record DISPLAY_OPTIONS : Type := {
  DisplayPadFill      : bool;
  DisplayPolarCood    : bool;
  ContrastModeDisplay : bool;
  other_options       : OTHER_OPTIONS;
}.

(** [settings->LoadDisplayOptions( DisplayOpt )] *)
Variable LoadDisplayOptions : DISPLAY_OPTIONS → RENDER_SETTINGS → RENDER_SETTINGS.

(** What OnTogglePadDrawMode reads and writes: the frame's flag, the
    global options, the painter's settings, the board as the pads of each
    module in list order, the pads whose view was updated (oldest first)
    and the number of canvas refreshes. *)
Record PAD_VIEW : Type := {
  m_DisplayPadFill : bool;
  DisplayOpt       : DISPLAY_OPTIONS;
  settings         : RENDER_SETTINGS;
  m_Modules        : list (list PAD);
  pads_updated     : list PAD;
  canvas_refreshes : nat;
}.

(** PCB_BASE_FRAME::OnTogglePadDrawMode *)
Definition OnTogglePadDrawMode (st : PAD_VIEW) : PAD_VIEW :=
  let fill := negb (m_DisplayPadFill st) in
  let opt := {| DisplayPadFill := fill;
                DisplayPolarCood := DisplayPolarCood (DisplayOpt st);
                ContrastModeDisplay := ContrastModeDisplay (DisplayOpt st);
                other_options := other_options (DisplayOpt st) |} in
  {| m_DisplayPadFill := fill;
     DisplayOpt := opt;
     settings := LoadDisplayOptions opt (settings st);
     m_Modules := m_Modules st;
     pads_updated := pads_updated st ++ concat (m_Modules st);
     canvas_refreshes := S (canvas_refreshes st) |}.

(** PCB_BASE_FRAME::OnUpdatePadDrawMode: the check state given to the
    event and the short help given to the tool. *)
Definition OnUpdatePadDrawMode (st : PAD_VIEW) : bool * string :=
  (negb (m_DisplayPadFill st),
   if m_DisplayPadFill st then tr "Show pads in outline mode"
   else tr "Show pads in fill mode").

Fixpoint toggles (n : nat) (st : PAD_VIEW) : PAD_VIEW :=
  match n with
  | O => st
  | S n' => toggles n' (OnTogglePadDrawMode st)
  end.

Lemma toggles_succ (n : nat) (st : PAD_VIEW) :
  toggles (S n) st = OnTogglePadDrawMode (toggles n st).
Proof.
  revert st. induction n as [|n IH]; intros st; [reflexivity|].
  change (toggles (S (S n)) st) with (toggles (S n) (OnTogglePadDrawMode st)).
  by rewrite IH.
Qed.

(** X16.  After any number of toggles, at least one, the global pad-fill option
    agrees with the frame's flag even if the two disagreed before; the
    frame's flag is the original one after an even number of toggles and
    its negation after an odd number; every toggle updates the view of
    each pad of each module once, module by module and pad by pad in list
    order, so the pads updated by n toggles are that sequence n times
    over, after those updated before; every toggle refreshes the canvas
    once; and the tool is shown checked exactly when pads are then drawn
    in outline. *)
Theorem pad_draw_mode_toggles (n : nat) (st : PAD_VIEW) :
  m_DisplayPadFill (toggles n st)
    = (if Nat.even n then m_DisplayPadFill st
       else negb (m_DisplayPadFill st)) ∧
  (n ≠ 0%nat →
   DisplayPadFill (DisplayOpt (toggles n st))
     = m_DisplayPadFill (toggles n st)) ∧
  pads_updated (toggles n st)
    = pads_updated st ++ concat (replicate n (concat (m_Modules st))) ∧
  canvas_refreshes (toggles n st) = (canvas_refreshes st + n)%nat ∧
  fst (OnUpdatePadDrawMode (toggles n st))
    = (if Nat.even n then negb (m_DisplayPadFill st)
       else m_DisplayPadFill st).
Proof.
  induction n as [|n (IHf & _ & IHp & IHr & _)].
  - simpl. rewrite app_nil_r. repeat split; (done || lia).
  - rewrite toggles_succ. cbn [OnTogglePadDrawMode m_DisplayPadFill
      DisplayOpt DisplayPadFill pads_updated canvas_refreshes
      OnUpdatePadDrawMode fst].
    assert (m_Modules (toggles n st) = m_Modules st) as Hmods.
    { clear. induction n as [|n IH]; [done|]. by rewrite toggles_succ. }
    rewrite IHf, Nat.even_succ, <- Nat.negb_even.
    split; [by destruct (Nat.even n), (m_DisplayPadFill st)|].
    split; [done|].
    split; [|split; [lia | by destruct (Nat.even n), (m_DisplayPadFill st)]].
    rewrite IHp, Hmods, <- app_assoc. f_equal.
    clear. induction n as [|n IH]; simpl; [by rewrite app_nil_r|].
    by rewrite <- app_assoc, IH.
Qed.

End PadDrawMode.
End PcbBaseFrameTools.
